(** * The LWE challenge driver of [lwe_challenge.py]

    A shallow embedding of [lwe_kernel]: the schedule of blocksizes, the
    cost model, the two forecasts ([attainable_SVP_dim] and
    [expected_successful_SVP_dim]), the lookahead over the next two
    blocksizes and the tour loop with its exits.

    Python floats are idealised as real numbers ([R]); [int(x)] on a float
    is truncation toward zero, [math.log] is [ln] on the positive reals and
    raises elsewhere, [2**x] is [Rpower 2 x].  Python objects that are
    shared or rebound (the dictionary [T_blocksizes], the object named by
    [params]) live in an explicit store, and local variables hold
    locations.  The engines of fpylll and g6k are taken as an interface. *)

From Stdlib Require Import Reals Lra Lia ZArith.
From Stdlib Require Import Ascii String DecimalString DecimalZ DecimalPos.
From stdpp Require Import base gmap list strings sorting.

Open Scope Z_scope.

(** ** Python values, exceptions and results *)

Inductive exn : Type :=
| ZeroDivisionError
| UnboundLocalError (name : string)
| NameError (name : string)
| AttributeError (attr : string)
| KeyError (key : Z)
| TypeError (msg : string)
| ValueError (msg : string)
| EvalError.             (* eval of a text outside the fragment followed *)

(** An integer as Python writes it in decimal. *)
Definition decimal (z : Z) : string := NilZero.string_of_int (Z.to_int z).

(** The error of [math.log] outside its domain, and the error of
    [list.index] for a value that is not in the list: both are a
    [ValueError], told apart by the message. *)
Definition MathDomainError : exn := ValueError "math domain error".
Definition NotInList (x : Z) : exn :=
  ValueError (decimal x +:+ " is not in list").

(** The outcome of a computation: a value, a raised exception, or a
    [while] loop that has run out of the fuel it was given. *)
Inductive res (A : Type) : Type :=
| Done (a : A)
| Raised (e : exn)
| OutOfFuel.
Arguments Done {A} a.
Arguments Raised {A} e.
Arguments OutOfFuel {A}.

Definition rbind {A B} (r : res A) (k : A -> res B) : res B :=
  match r with
  | Done a => k a
  | Raised e => Raised e
  | OutOfFuel => OutOfFuel
  end.

Notation "'let*' x ':=' r 'in' k" := (rbind r (fun x => k))
  (at level 10, x name, r at level 100, k at level 200).

(** [int(x)] for a float [x]: truncation toward zero. *)
Definition py_int (x : R) : Z :=
  if Rle_dec 0 x then Int_part x else (- Int_part (- x))%Z.

(** [math.log(x)]. *)
Definition py_log (x : R) : res R :=
  if Rlt_dec 0 x then Done (ln x) else Raised MathDomainError.

(** [a / b] on floats. *)
Definition fdiv (a b : R) : res R :=
  if Req_dec_T b 0 then Raised ZeroDivisionError else Done (a / b)%R.

(** [2 ** x] for a float [x]. *)
Definition pow2 (x : R) : R := Rpower 2 x.

(** [list(range(lo, hi, step))] for a step other than zero;
    [list(range(lo, hi))] is [py_range lo hi 1]. *)
Definition py_range (lo hi step : Z) : list Z :=
  let len := if 0 <? step then (hi - lo + step - 1) / step
             else (lo - hi - step - 1) / (- step) in
  map (fun i : nat => lo + Z.of_nat i * step) (seq 0 (Z.to_nat len)).

(** [l.index(x)]: the first position of [x]. *)
Fixpoint py_index (x : Z) (l : list Z) : res nat :=
  match l with
  | [] => Raised (NotInList x)
  | y :: l' => if Z.eq_dec y x then Done O
               else let* i := py_index x l' in Done (S i)
  end.

(** A sequence value: a list, or a [range] object (Python 3). *)
Inductive pyseq : Type :=
| PyList (l : list Z)
| PyRange (lo hi step : Z).

(** [a + b] on sequence values: only two lists concatenate. *)
Definition py_add (a b : pyseq) : res pyseq :=
  match a, b with
  | PyList x, PyList y => Done (PyList (x ++ y))
  | PyList _, PyRange _ _ _ =>
      Raised (TypeError "can only concatenate list (not range) to list")
  | PyRange _ _ _, _ =>
      Raised (TypeError "unsupported operand type(s) for +: range")
  end.

(** [list(s)]. *)
Definition py_list (s : pyseq) : list Z :=
  match s with
  | PyList l => l
  | PyRange lo hi step => py_range lo hi step
  end.

(** ** The cost model *)

Definition expo : R := (292 / 1000)%R.

(** The cost model as the specification words it, with its offset of 64:
    the expected time of a search in dimension [dim] on [threads]
    threads. *)
Definition expected_search_time (dim threads : Z) : R :=
  (pow2 (expo * IZR (dim - 64)) / IZR threads)%R.

(** Its inverse as the specification words it: the dimension, as a real
    number, that the budget [time_factor * elapsed] pays for. *)
Definition search_dim_budget (time_factor : R) (threads : Z) (elapsed : R)
    : R :=
  (64 + (1 / expo) * ln (time_factor * elapsed * IZR threads) / ln 2)%R.

(** [target_norm = goal_margin * (alpha*q)**2 * m + 1] *)
Definition target_norm (goal_margin alpha : R) (q m : Z) : R :=
  (goal_margin * (alpha * IZR q) ^ 2 * IZR m + 1)%R.

(** [attainable_SVP_dim], with the two names it takes from the enclosing
    scope, [svp_bkz_time_factor] and the value of [params.threads], as
    arguments. *)
Definition attainable_SVP_dim (svp_bkz_time_factor : R) (threads : Z)
    (T_BKZ : R) : res Z :=
  let svp_Tmax := (svp_bkz_time_factor * T_BKZ)%R in
  let* l := py_log (svp_Tmax * IZR threads) in
  Done (py_int (IZR (58 + 6) + (1 / expo) * l / ln 2)%R).

(** ** The schedule of blocksizes *)

(** [re.sub(":", ",", s)] *)
Fixpoint re_sub_colon (s : string) : string :=
  match s with
  | EmptyString => EmptyString
  | String c s' =>
      String (if Ascii.eqb c ":" then "," else c)%char (re_sub_colon s')
  end.

(** The fields of a text between commas. *)
Fixpoint split_commas (s : string) (cur : string) : list string :=
  match s with
  | EmptyString => [cur]
  | String c s' =>
      if Ascii.eqb c "," then cur :: split_commas s' EmptyString
      else split_commas s' (cur +:+ String c EmptyString)
  end.

(** A decimal integer literal, with its sign: the digits of a number as
    Python writes it, so without leading zeros. *)
Definition int_literal (s : string) : option Z :=
  match Z.of_int <$> NilZero.int_of_string s with
  | Some z => if String.eqb (decimal z) s then Some z else None
  | None => None
  end.

(** The text of a call: [Some args] when [s] is [name(args)]. *)
Definition call_arguments (name s : string) : option string :=
  let pre := (name +:+ "(")%string in
  let k := String.length pre in
  let len := String.length s in
  if (String.eqb (substring 0 k s) pre
      && String.eqb (substring (len - 1) 1 s) ")"
      && (k <? len)%nat)%bool
  then Some (substring k (len - 1 - k) s) else None.

(** [eval] of a text.  Only calls of [range] on decimal integer literals
    are followed, and their value is a [range] object; any other text is
    given [EvalError], whether Python raises on it or evaluates it. *)
Definition py_eval (s : string) : res pyseq :=
  match call_arguments "range" s with
  | None => Raised EvalError
  | Some args =>
      match mapM int_literal (split_commas args EmptyString) with
      | Some [hi] => Done (PyRange 0 hi 1)
      | Some [lo; hi] => Done (PyRange lo hi 1)
      | Some [lo; hi; step] =>
          if step =? 0 then Raised (ValueError "range() arg 3 must not be zero")
          else Done (PyRange lo hi step)
      | _ => Raised EvalError
      end
  end.

(** Lines 134-137: the value bound to [blocksizes], from the parameter
    [bkz/blocksizes] and the predicted blocksize [b]. *)
Definition build_blocksizes (blocksizes : option string) (b : Z) : res pyseq :=
  match blocksizes with
  | Some spec =>
      let* r := py_eval ("range(" +:+ re_sub_colon spec +:+ ")") in
      py_add (PyList (py_range 10 40 1)) r
  | None =>
      let* x := py_add (PyList (py_range 10 50 1))
                       (PyList (py_range 70 (b - 15) 10)) in
      let* y := py_add x (PyList [b - 15]) in
      py_add y (PyList (py_range (b - 13) (b + 25) 2))
  end.

(** What the same line gives once the evaluated range is wrapped in
    [list(...)], as every range of the default branch is. *)
Definition build_blocksizes_listed (spec : string) : res pyseq :=
  let* r := py_eval ("range(" +:+ re_sub_colon spec +:+ ")") in
  py_add (PyList (py_range 10 40 1)) (PyList (py_list r)).

(** ** The engines and the store *)

(** What the kernel takes from fpylll and g6k.  [World] is the siever with
    its basis and Gram-Schmidt object; every engine call is a blocking step
    from one world to the next. *)
Class External : Type := {
  World : Type;
  (* fpylll.util.gaussian_heuristic *)
  gaussian_heuristic : list R -> R;
  (* fpylll.tools.bkz_simulator.simulate, on a profile and the block_size
     and max_loops of the parameter object; the first component *)
  simulate : list R -> Z -> Z -> list R;
  (* the attribute threads of fplll_bkz.Param(block_size, max_loops):
     None when the object has no such attribute *)
  BKZParam_threads : Z -> Z -> option Z;
  (* the reading of the k-th call of time.time() *)
  time_time : nat -> R;
  (* g6k.lll(0, g6k.full_n) *)
  lll : World -> World;
  (* BKZReduction(g6k.M)(Param(blocksize, max_loops=1)) *)
  fpylll_bkz_tour : Z -> World -> World;
  (* pump_n_jump_bkz_tour(g6k, tracer, blocksize, ..., goal_r0=...) *)
  pump_n_jump_bkz_tour : Z -> R -> World -> World;
  (* pump(g6k, tracer, llb, d-llb, f, goal_r0=...) *)
  pump : Z -> Z -> Z -> R -> World -> World;
  (* g6k.M.get_r(i, j), list(g6k.M.r()), str(g6k.M.B[0]) *)
  get_r : World -> Z -> Z -> R;
  M_r : World -> list R;
  B0 : World -> string;
  (* g6k.full_n *)
  full_n : World -> Z;
  (* load_lwe_challenge(n, alpha): the columns of A and the modulus q *)
  load_lwe_challenge : Z -> R -> Z * Z;
  (* gsa_params(n, alpha, q, decouple): None when it returns no triple *)
  gsa_params : Z -> R -> Z -> bool -> option (Z * Z * Z);
  (* Siever(primal_lattice_basis(A, c, q, m), params), for the instance
     (n, alpha) and the thread count of params *)
  Siever : Z -> R -> Z -> Z -> World
}.

(** Objects of the store. *)
Inductive obj : Type :=
| SieverParams (threads : Z)
| BKZParam (block_size max_loops : Z)
| Dict (items : gmap Z R).

Abbreviation loc := nat (only parsing).

(** Calls of the engines and of the file system, in order. *)
Inductive event : Type :=
| Tour (blocksize : Z)
| Pump (llb dim f : Z)
| Write (filename content : string).

(** The mutable part of the kernel's frame. *)
Record frame `{External} : Type := Frame {
  g6k : World;
  store : list obj;
  params : loc;
  T_blocksizes : loc;
  T0_BKZ : R;
  clock : nat;
  log : list event
}.

Section Monad.
Context `{External}.

Definition M (A : Type) : Type := frame -> res A * frame.

Definition ret {A} (a : A) : M A := fun s => (Done a, s).
Definition raise {A} (e : exn) : M A := fun s => (Raised e, s).
Definition lift {A} (r : res A) : M A := fun s => (r, s).
Definition bind {A B} (m : M A) (k : A -> M B) : M B :=
  fun s => match m s with
           | (Done a, s') => k a s'
           | (Raised e, s') => (Raised e, s')
           | (OutOfFuel, s') => (OutOfFuel, s')
           end.

Definition get : M frame := fun s => (Done s, s).
End Monad.

Notation "'let!' x ':=' m 'in' k" := (bind m (fun x => k))
  (at level 10, x name, m at level 100, k at level 200).
Notation "m >> k" := (bind m (fun _ => k))
  (at level 100, k at level 200, right associativity).

Section Primitives.
Context `{External}.

(** [time.time()] *)
Definition time : M R := fun s =>
  (Done (time_time (clock s)),
   Frame _ (g6k s) (store s) (params s) (T_blocksizes s) (T0_BKZ s)
         (S (clock s)) (log s)).

(** An engine call, recorded. *)
Definition engine (f : World -> World) (ev : list event) : M unit := fun s =>
  (Done tt,
   Frame _ (f (g6k s)) (store s) (params s) (T_blocksizes s) (T0_BKZ s)
         (clock s) (log s ++ ev)).

Definition emit (ev : event) : M unit := engine (fun w => w) [ev].

(** A new object in the store. *)
Definition alloc (o : obj) : M loc := fun s =>
  (Done (length (store s)),
   Frame _ (g6k s) (store s ++ [o]) (params s) (T_blocksizes s) (T0_BKZ s)
         (clock s) (log s)).

(** The check of [fplll_bkz.Param] on its block size: the constructor
    refuses one that is not positive. *)
Definition check_block_size (block_size : Z) : M unit :=
  if block_size <=? 0 then raise (ValueError "block size must be > 0")
  else ret tt.

(** [fplll_bkz.Param(block_size=..., max_loops=...)], kept in the
    store. *)
Definition BKZ_Param (block_size max_loops : Z) : M loc :=
  check_block_size block_size >> alloc (BKZParam block_size max_loops).

(** [params = ...]: the local name is bound to another object. *)
Definition set_params (p : loc) : M unit := fun s =>
  (Done tt,
   Frame _ (g6k s) (store s) p (T_blocksizes s) (T0_BKZ s) (clock s) (log s)).

Definition set_T0_BKZ (t : R) : M unit := fun s =>
  (Done tt,
   Frame _ (g6k s) (store s) (params s) (T_blocksizes s) t (clock s) (log s)).

(** [o.threads] *)
Definition attr_threads (o : obj) : res Z :=
  match o with
  | SieverParams t => Done t
  | BKZParam bs loops =>
      match BKZParam_threads bs loops with
      | Some t => Done t
      | None => Raised (AttributeError "threads")
      end
  | Dict _ => Raised (AttributeError "threads")
  end.

(** [params.threads], through the local name [params]. *)
Definition params_threads : M Z := fun s =>
  (match store s !! params s with
   | Some o => attr_threads o
   | None => Raised (NameError "params")
   end, s).

(** [t[key]] for the dictionary at [t]. *)
Definition dict_get (t : loc) (key : Z) : M R := fun s =>
  (match store s !! t with
   | Some (Dict items) =>
       match items !! key with
       | Some v => Done v
       | None => Raised (KeyError key)
       end
   | _ => Raised (TypeError "object is not subscriptable")
   end, s).

(** [t[key] = v] *)
Definition dict_set (t : loc) (key : Z) (v : R) : M unit := fun s =>
  match store s !! t with
  | Some (Dict items) =>
      (Done tt,
       Frame _ (g6k s) (<[t := Dict (<[key := v]> items)]> (store s))
             (params s) (T_blocksizes s) (T0_BKZ s) (clock s) (log s))
  | _ => (Raised (TypeError "object does not support item assignment"), s)
  end.
End Primitives.

(** ** The forecasts *)

Section Forecast.
Context `{External}.
Variables (target_norm goal_margin : R) (d : Z).

(** The loop of [expected_successful_SVP_dim] over the candidates still
    to try; [n_expected] is the binding the loop variable has so far. *)
Fixpoint scan_n_expected (rr : list R) (candidates : list Z)
    (n_expected : option Z) : res Z :=
  match candidates with
  | [] =>
      match n_expected with
      | Some k => Done k
      | None => Raised (UnboundLocalError "n_expected")
      end
  | k :: rest =>
      let* ratio := fdiv target_norm goal_margin in
      let x := (ratio * IZR k / (1 * IZR d))%R in
      if Rgt_dec (4 / 3 * gaussian_heuristic (drop (Z.to_nat (d - k)) rr)) x
      then Done k
      else scan_n_expected rr rest (Some k)
  end.

(** [expected_successful_SVP_dim(rr)], on the world [w] of the siever. *)
Definition expected_successful_SVP_dim (w : World) (rr : option (list R))
    : res Z :=
  let rr := match rr with
            | None => map (fun i => get_r w i i) (py_range 0 d 1)
            | Some rr => rr
            end in
  scan_n_expected rr (py_range 2 d 1) None.

(** Lines 275-276: [llb] is lowered while the Gaussian heuristic of the
    block from [llb] on is below its share of the target. *)
Fixpoint shrink_llb (fuel : nat) (w : World) (llb : Z) : res Z :=
  if Rlt_dec (gaussian_heuristic (map (fun i => get_r w i i)
                                      (py_range llb d 1)))
             (target_norm * IZR (d - llb) / (1 * IZR d))
  then match fuel with
       | O => OutOfFuel
       | S fuel' => shrink_llb fuel' w (llb - 1)
       end
  else Done llb.
End Forecast.

(** ** The lookahead *)

Section Lookahead.
Context `{External}.
Variables (target_norm goal_margin : R) (d : Z).

(** Lines 240-253: one pass over [remaining_blocksizes]. *)
Fixpoint lookahead (remaining_blocksizes : list Z) (previous_blocksize : Z)
    (rr : list R) (extra_T_BKZ : R) (temp_T_blocksizes : loc)
    (future_rrs : list (list R)) (extra_T_BKZs : list R)
    : M (list (list R) * list R) :=
  match remaining_blocksizes with
  | [] => ret (future_rrs, extra_T_BKZs)
  | rblock :: rest =>
      let! p := BKZ_Param rblock 1 in
      set_params p >>
      let rr := simulate rr rblock 1 in
      let future_rrs := future_rrs ++ [rr] in
      let! T_previous := dict_get temp_T_blocksizes previous_blocksize in
      let T_rblock_BKZ :=
        (T_previous * pow2 (expo * IZR (rblock - previous_blocksize)))%R in
      dict_set temp_T_blocksizes rblock T_rblock_BKZ >>
      let extra_T_BKZ := (extra_T_BKZ + T_rblock_BKZ)%R in
      lookahead rest rblock rr extra_T_BKZ temp_T_blocksizes
                future_rrs (extra_T_BKZs ++ [extra_T_BKZ])
  end.

(** Lines 255-265: the loop that sets [more_BKZ]. *)
Fixpoint decide_more_BKZ (current_n_expected : Z)
    (steps : list (list R * R)) (more_BKZ : bool) : M bool :=
  match steps with
  | [] => ret more_BKZ
  | (rr, extra_T_BKZ) :: rest =>
      let! s := get in
      let! potential_n_expected :=
        lift (expected_successful_SVP_dim target_norm goal_margin d
                                          (g6k s) (Some rr)) in
      let svp_dim_dec := potential_n_expected - current_n_expected in
      if 0 <=? svp_dim_dec then
        decide_more_BKZ current_n_expected rest more_BKZ
      else
        let time_SVP_current :=
          pow2 (expo * IZR (current_n_expected - 64)) in
        let! threads := params_threads in
        let! time_SVP_current :=
          lift (fdiv time_SVP_current (IZR threads)) in
        if Rlt_dec extra_T_BKZ
             ((1 - pow2 (expo * IZR svp_dim_dec)) * time_SVP_current)
        then decide_more_BKZ current_n_expected rest true
        else decide_more_BKZ current_n_expected rest more_BKZ
  end.
End Lookahead.

(** ** The kernel *)

(** The entries of [params] the kernel pops or reads, by their keys. *)
Record Params : Type := {
  bkz_blocksizes : option string;
  bkz_tours : Z;
  bkz_fpylll_crossover : Z;
  lwe_svp_bkz_time_factor : R;
  lwe_goal_margin : R;
  lwe_alpha : R;
  lwe_m : option Z;
  opt_verbose : bool;
  opt_threads : Z
}.

(** The locals of [lwe_kernel] that are bound once, before the loop. *)
Module Env.
Record t : Type := {
  n : Z;
  alpha : R;
  q : Z;
  m : Z;
  goal_margin : R;
  svp_bkz_time_factor : R;
  fpylll_crossover : Z;
  tours : Z;
  verbose : bool;
  blocksizes : list Z;
  d : Z
}.
End Env.

(** How an iteration of the tour loop ends: by falling through or
    [continue], or by [break]. *)
Inductive ctl : Type := Next | Break.

(** ['%03d' % z] *)
Definition fmt_03d (z : Z) : string :=
  let digits := NilZero.string_of_uint (N.to_uint (Z.abs_N z)) in
  let zeros k := string_of_list_ascii (repeat "0"%char k) in
  if z <? 0
  then ("-" +:+ zeros (2 - String.length digits)%nat +:+ digits)%string
  else (zeros (3 - String.length digits)%nat +:+ digits)%string.

(** ['lwechallenge/%03d-%03d-solution.txt' % (n, alpha_)] *)
Definition solution_filename (n alpha_ : Z) : string :=
  ("lwechallenge/" +:+ fmt_03d n +:+ "-" +:+ fmt_03d alpha_
     +:+ "-solution.txt")%string.

Section Kernel.
Context `{External}.
Variable e : Env.t.

Definition env_target_norm : R :=
  target_norm (Env.goal_margin e) (Env.alpha e) (Env.q e) (Env.m e).

Definition goal_reached (w : World) : bool :=
  if Rle_dec (get_r w 0 0) env_target_norm then true else false.

Definition when_verbose (m : M unit) : M unit :=
  if Env.verbose e then m else ret tt.

(** Lines 270-293: the larger search, the end of an iteration whose
    lookahead did not ask for more reduction; [w] is the world the
    iteration evaluated. *)
Definition escalate (fuel : nat) (blocksize current_n_max : Z) (w : World)
    : M ctl :=
  let d := Env.d e in
  let current_n_max := current_n_max + 1 in
  let! llb := lift (shrink_llb env_target_norm d fuel w (d - blocksize)) in
  let f := d - llb - current_n_max in
  when_verbose (raise (NameError "svp_Tmax")) >>
  engine (pump llb (d - llb) f
               (env_target_norm * IZR (d - llb) / (1 * IZR d))%R)
         [Pump llb (d - llb) f] >>
  when_verbose (time >> ret tt) >>
  engine lll [] >>
  let! now := time in
  set_T0_BKZ now >>
  let! s := get in
  if goal_reached (g6k s) then ret Break else ret Next.

(** Lines 227-265: the lookahead of an iteration, from the profile of
    the world [w]: the value of [more_BKZ]. *)
Definition look_ahead_round (blocksize current_n_expected : Z) (w : World)
    : M bool :=
  let! ind := lift (py_index blocksize (Env.blocksizes e)) in
  let remaining_blocksizes := take 2 (drop (S ind) (Env.blocksizes e)) in
  let! s := get in
  let temp_T_blocksizes := T_blocksizes s in
  let! future :=
    lookahead remaining_blocksizes blocksize (M_r w) 0
              temp_T_blocksizes [] [] in
  decide_more_BKZ env_target_norm (Env.goal_margin e) (Env.d e)
                  current_n_expected (zip (fst future) (snd future))
                  false.

(** Lines 159-293: one iteration of the loop over [range(tours)]. *)
Definition tour (fuel : nat) (blocksize : Z) : M ctl :=
  let d := Env.d e in
  let! T0_this_blocksize := time in
  (if blocksize <? Env.fpylll_crossover e
   then check_block_size blocksize >>
        engine (fpylll_bkz_tour blocksize) [Tour blocksize]
   else engine (pump_n_jump_bkz_tour blocksize env_target_norm)
               [Tour blocksize]) >>
  let! now := time in
  let! s := get in
  let T_BKZ := (now - T0_BKZ s)%R in
  let! now := time in
  dict_set (T_blocksizes s) blocksize (now - T0_this_blocksize)%R >>
  when_verbose (time >> ret tt) >>
  engine lll [] >>
  let! s := get in
  if goal_reached (g6k s) then ret Break else
  let! threads := params_threads in
  let! current_n_max :=
    lift (attainable_SVP_dim (Env.svp_bkz_time_factor e) threads T_BKZ) in
  let! current_n_expected :=
    lift (expected_successful_SVP_dim env_target_norm (Env.goal_margin e) d
                                      (g6k s) None) in
  if current_n_max - 1 <=? current_n_expected then ret Next else
  let! more_BKZ := look_ahead_round blocksize current_n_expected (g6k s) in
  if more_BKZ then ret Next else
  escalate fuel blocksize current_n_max (g6k s).

(** Lines 158-293: the loop over [range(tours)], [count] iterations
    being left. *)
Fixpoint tours_loop (fuel : nat) (count : nat) (blocksize : Z) : M unit :=
  match count with
  | O => ret tt
  | S count' =>
      let! c := tour fuel blocksize in
      match c with
      | Break => ret tt
      | Next => tours_loop fuel count' blocksize
      end
  end.

(** Lines 296-303; the file is taken to open and the write to
    succeed. *)
Definition finish : M unit :=
  time >>
  let! s := get in
  let alpha_ := py_int (Env.alpha e * 1000) in
  emit (Write (solution_filename (Env.n e) alpha_) (B0 (g6k s))).

(** Lines 157-305: the loop over the blocksizes still to run, and the
    [raise] after it. *)
Fixpoint blocksizes_loop (fuel : nat) (todo : list Z) : M unit :=
  match todo with
  | [] => raise (ValueError "No solution found.")
  | blocksize :: rest =>
      tours_loop fuel (Z.to_nat (Env.tours e)) blocksize >>
      let! s := get in
      if goal_reached (g6k s) then finish
      else blocksizes_loop fuel rest
  end.
End Kernel.

Section Entry.
Context `{External}.

(** Lines 78-156: the locals and the frame the loop starts from.  The
    store holds the caller's parameter object at 0, its copy (line 83)
    at 1 and the dictionary [T_blocksizes] at 2; the siever is built
    from the copy. *)
Definition prologue (n : Z) (p : Params) : res (Env.t * frame) :=
  let alpha := lwe_alpha p in
  let decouple := if Rlt_dec 0 (lwe_svp_bkz_time_factor p)
                  then true else false in
  let threads := opt_threads p in
  let '(ncols, q) := load_lwe_challenge n alpha in
  let* bsm := match gsa_params ncols alpha q decouple with
              | Some x => Done x
              | None => Raised (TypeError "No winning parameters.")
              end in
  let '(b, _, m_est) := bsm in
  let m := match lwe_m p with None => m_est | Some m => m end in
  let* blocksizes := build_blocksizes (bkz_blocksizes p) b in
  let g6k0 := Siever n alpha m threads in
  let d := full_n g6k0 in
  let w := lll g6k0 in
  Done ({| Env.n := n; Env.alpha := alpha; Env.q := q; Env.m := m;
           Env.goal_margin := lwe_goal_margin p;
           Env.svp_bkz_time_factor := lwe_svp_bkz_time_factor p;
           Env.fpylll_crossover := bkz_fpylll_crossover p;
           Env.tours := bkz_tours p;
           Env.verbose := opt_verbose p;
           Env.blocksizes := py_list blocksizes;
           Env.d := d |},
        {| g6k := w;
           store := [SieverParams threads; SieverParams threads; Dict ∅];
           params := 1%nat;
           T_blocksizes := 2%nat;
           T0_BKZ := time_time 1;
           clock := 2%nat;
           log := [] |}).

(** [lwe_kernel(n, params)]: how the call ends, and the frame it ends
    in when the loop was entered. *)
Definition lwe_kernel (fuel : nat) (n : Z) (p : Params)
    : res unit * option frame :=
  match prologue n p with
  | Done (e, s) =>
      let (r, s') := blocksizes_loop e fuel (Env.blocksizes e) s in
      (r, Some s')
  | Raised x => (Raised x, None)
  | OutOfFuel => (OutOfFuel, None)
  end.
End Entry.

(** The schedule is exhausted: from the frame [s], every blocksize of
    [todo] has had its loop over [range(tours)] run to its end, and the
    check on line 295 has failed each time; the frame this ends in. *)
Fixpoint schedule_exhausted `{External} (e : Env.t) (fuel : nat)
    (todo : list Z) (s : frame) : option frame :=
  match todo with
  | [] => Some s
  | blocksize :: rest =>
      match tours_loop e fuel (Z.to_nat (Env.tours e)) blocksize s with
      | (Done tt, s1) =>
          if goal_reached e (g6k s1) then None
          else schedule_exhausted e fuel rest s1
      | _ => None
      end
  end.

(** ** Reading the log *)

Definition is_tour (ev : event) : bool :=
  match ev with Tour _ => true | _ => false end.

Definition is_pump (ev : event) : bool :=
  match ev with Pump _ _ _ => true | _ => false end.

(** The number of events of a kind in a log. *)
Fixpoint count (kind : event -> bool) (l : list event) : nat :=
  match l with
  | [] => O
  | ev :: l' => ((if kind ev then 1 else 0) + count kind l')%nat
  end.

(** ** The specification's condition, and engines to evaluate with *)

(** The success condition of the specification for the candidate [k]:
    [(4/3) gaussian_heuristic(r[d-k..d-1]) > (target_norm/goal_margin) k/d]. *)
Definition success_condition `{External} (target_norm goal_margin : R)
    (d : Z) (rr : list R) (k : Z) : Prop :=
  (4 / 3 * gaussian_heuristic (drop (Z.to_nat (d - k)) rr)
   > target_norm / goal_margin * IZR k / IZR d)%R.

(** What a step of the lookahead, a simulated profile with the extra
    reduction time to reach it, recommends by the rule of the
    specification on [threads] threads: the simulated dimension [k] is
    below the current one by [delta > 0], and the extra time is below
    [(1 - 2^(-C delta)) * expected_search_time(current, threads)]. *)
Definition step_recommends `{External} (target_norm goal_margin : R)
    (d : Z) (w : World) (current_n_expected threads : Z)
    (step : list R * R) : Prop :=
  exists k : Z,
    expected_successful_SVP_dim target_norm goal_margin d w (Some step.1)
    = Done k
    /\ 0 < current_n_expected - k
    /\ (step.2 < (1 - pow2 (- expo * IZR (current_n_expected - k)))
                 * expected_search_time current_n_expected threads)%R.

(** The volume of the unit ball of dimension [n]. *)
Fixpoint unit_ball_volume (n : nat) : R :=
  match n with
  | O => 1%R
  | S O => 2%R
  | S (S k) => (2 * PI / INR n * unit_ball_volume k)%R
  end.

(** The Gaussian heuristic of a profile of squared norms in closed form:
    [exp((sum(log r_i) - 2 log V_n) / n)]. *)
Definition gaussian_heuristic_closed_form (r : list R) : R :=
  let n := length r in
  exp (1 / INR n
       * (foldr Rplus 0 (ln <$> r) - 2 * ln (unit_ball_volume n)))%R.

(** Engines that leave the basis alone: the world is the profile, every
    tour, search and size reduction returns it as it is, the clock
    advances by one second per reading and the parameter object of the
    simulator has no attribute [threads].  The estimator answers
    [estimate] and the simulator [predict]. *)
Definition engines (estimate : option (Z * Z * Z))
    (predict : list R -> Z -> Z -> list R) : External := {|
  World := list R;
  gaussian_heuristic := gaussian_heuristic_closed_form;
  simulate := predict;
  BKZParam_threads := fun _ _ => None;
  time_time := INR;
  lll := fun w => w;
  fpylll_bkz_tour := fun _ w => w;
  pump_n_jump_bkz_tour := fun _ _ w => w;
  pump := fun _ _ _ _ w => w;
  get_r := fun w i j => if i =? j then nth (Z.to_nat i) w 0%R else 0%R;
  M_r := fun w => w;
  B0 := fun _ => "[]"%string;
  full_n := fun w => Z.of_nat (length w);
  load_lwe_challenge := fun n _ => (n, 4093);
  gsa_params := fun _ _ _ _ => estimate;
  Siever := fun _ _ m _ => repeat 1%R (Z.to_nat m)
|}.

(** The same with a simulator that predicts no change. *)
Definition idle_engines (estimate : option (Z * Z * Z)) : External :=
  engines estimate (fun rr _ _ => rr).

(** The frame of a run on four threads after its first tour, at blocksize
    10, which took two seconds: the caller's parameters at 0, their copy
    at 1, the table at 2. *)
Definition after_first_tour (predict : list R -> Z -> Z -> list R)
    : @frame (engines None predict) :=
  @Frame (engines None predict)
    (1000000%R :: repeat 1%R 99)
    [SieverParams 4; SieverParams 4; Dict {[10 := 2%R]}]
    1%nat 2%nat 1%R 5%nat [Tour 10].

(** The extrapolated duration of a tour at blocksize 11 after a tour of
    two seconds at blocksize 10. *)
Definition extrapolated_11 : R := (2 * pow2 (expo * IZR (11 - 10)))%R.

(** The locals of a run on the instance (40, 0.005) with 99 samples, a
    basis of dimension 100 and the first forty blocksizes of the default
    schedule. *)
Definition run_env : Env.t :=
  {| Env.n := 40; Env.alpha := 5 / 1000; Env.q := 4093; Env.m := 99;
     Env.goal_margin := 3 / 2; Env.svp_bkz_time_factor := 1;
     Env.fpylll_crossover := 51; Env.tours := 1; Env.verbose := false;
     Env.blocksizes := py_range 10 50 1; Env.d := 100 |}.

(** A simulator that predicts a profile whose last two norms are large. *)
Definition improving (rr : list R) (block_size max_loops : Z) : list R :=
  repeat 1%R 98 ++ [1000000%R; 1000000%R].

(** The parameters [lwe()] passes by default (lines 315-329), on one
    thread. *)
Definition default_params : Params :=
  {| bkz_blocksizes := None; bkz_tours := 1; bkz_fpylll_crossover := 51;
     lwe_svp_bkz_time_factor := 1; lwe_goal_margin := 3 / 2;
     lwe_alpha := 5 / 1000; lwe_m := None; opt_verbose := true;
     opt_threads := 1 |}.

(** ** Conditions and sequences the further properties speak of *)

(** The test of the [while] loop on lines 275-276, at [llb]: the Gaussian
    heuristic of the block from [llb] on is below its share of the
    target. *)
Definition block_too_short `{External} (target_norm : R) (d : Z)
    (w : World) (llb : Z) : Prop :=
  (gaussian_heuristic (map (fun i => get_r w i i) (py_range llb d 1))
   < target_norm * IZR (d - llb) / (1 * IZR d))%R.

(** The profiles the simulator predicts along a window, each from the
    one before. *)
Fixpoint simulated `{External} (rr : list R) (window : list Z)
    : list (list R) :=
  match window with
  | [] => []
  | rblock :: rest =>
      simulate rr rblock 1 :: simulated (simulate rr rblock 1) rest
  end.

(** The sums of a list of durations, one per prefix, on top of [acc]. *)
Fixpoint running_sums (acc : R) (durations : list R) : list R :=
  match durations with
  | [] => []
  | t :: rest => (acc + t)%R :: running_sums (acc + t)%R rest
  end.

(** The duration of a tour at blocksize [rblock] by the cost model, from
    a tour of duration [T] at blocksize [blocksize]. *)
Definition extrapolated (T : R) (blocksize rblock : Z) : R :=
  (T * pow2 (expo * IZR (rblock - blocksize)))%R.

Definition is_write (ev : event) : bool :=
  match ev with Write _ _ => true | _ => false end.

(** Logs made of tours, each followed by at most one search. *)
Inductive tour_blocks : list event -> Prop :=
| blocks_nil : tour_blocks []
| blocks_tour (blocksize : Z) (l : list event) :
    tour_blocks l -> tour_blocks (l ++ [Tour blocksize])
| blocks_search (blocksize llb dim f : Z) (l : list event) :
    tour_blocks l -> tour_blocks (l ++ [Tour blocksize; Pump llb dim f]).

(** The toy run: the instance (40, 0.005) with the default parameters on
    engines whose estimator predicts blocksize 60 and 99 samples.  Its
    locals, the frame its loop starts from and the frame it ends in. *)
Definition toy_engines : External := idle_engines (Some (60, 60, 99)).

Definition toy_env : Env.t :=
  {| Env.n := 40; Env.alpha := 5 / 1000; Env.q := 4093; Env.m := 99;
     Env.goal_margin := 3 / 2; Env.svp_bkz_time_factor := 1;
     Env.fpylll_crossover := 51; Env.tours := 1; Env.verbose := true;
     Env.blocksizes :=
       ((py_range 10 50 1 ++ py_range 70 (60 - 15) 10) ++ [60 - 15])
       ++ py_range (60 - 13) (60 + 25) 2;
     Env.d := 99 |}.

Definition toy_start : @frame toy_engines :=
  @Frame toy_engines (repeat 1%R 99)
    [SieverParams 1; SieverParams 1; Dict ∅] 1%nat 2%nat (INR 1) 2%nat [].

Definition toy_finished : @frame toy_engines :=
  @Frame toy_engines (repeat 1%R 99)
    [SieverParams 1; SieverParams 1;
     Dict {[10 := (INR 4 - INR 2)%R]}] 1%nat 2%nat (INR 1) 7%nat
    [Tour 10; Write "lwechallenge/040-005-solution.txt" "[]"].

(** The exceptions the statements of the loop can raise themselves: of
    the forecasts, of the constructor of the parameter object, of the
    read of the thread count, of the status message of the larger
    search, and of the end of the schedule. *)
Definition loop_exn (x : exn) : bool :=
  match x with
  | ZeroDivisionError => true
  | UnboundLocalError name => String.eqb name "n_expected"
  | NameError name => String.eqb name "svp_Tmax"
  | AttributeError attr => String.eqb attr "threads"
  | ValueError msg =>
      String.eqb msg "math domain error"
      || String.eqb msg "block size must be > 0"
      || String.eqb msg "No solution found."
  | KeyError _ | TypeError _ | EvalError => false
  end.

(** The store of a frame is in order: the table is a dictionary and
    [params] names an object. *)
Definition store_in_order `{External} (s : frame) : Prop :=
  (exists items, store s !! T_blocksizes s = Some (Dict items))
  /\ is_Some (store s !! params s).

(** Engines as idle as [toy_engines], on a basis whose first vector is
    long: the goal is out of reach. *)
Definition stuck_engines : External := {|
  World := list R;
  gaussian_heuristic := gaussian_heuristic_closed_form;
  simulate := fun rr _ _ => rr;
  BKZParam_threads := fun _ _ => None;
  time_time := INR;
  lll := fun w => w;
  fpylll_bkz_tour := fun _ w => w;
  pump_n_jump_bkz_tour := fun _ _ w => w;
  pump := fun _ _ _ _ w => w;
  get_r := fun w i j => if i =? j then nth (Z.to_nat i) w 0%R else 0%R;
  M_r := fun w => w;
  B0 := fun _ => "[]"%string;
  full_n := fun w => Z.of_nat (length w);
  load_lwe_challenge := fun n _ => (n, 4093);
  gsa_params := fun _ _ _ _ => Some (60, 60, 99);
  Siever := fun _ _ m _ => 1000000%R :: repeat 1%R (Z.to_nat m)
|}.

(** The default parameters with [bkz/tours] set to zero. *)
Definition no_tours_params : Params :=
  {| bkz_blocksizes := None; bkz_tours := 0; bkz_fpylll_crossover := 51;
     lwe_svp_bkz_time_factor := 1; lwe_goal_margin := 3 / 2;
     lwe_alpha := 5 / 1000; lwe_m := None; opt_verbose := true;
     opt_threads := 1 |}.

(** The locals and the first frame of the call on [stuck_engines] with
    these parameters. *)
Definition stuck_env : Env.t :=
  {| Env.n := 40; Env.alpha := 5 / 1000; Env.q := 4093; Env.m := 99;
     Env.goal_margin := 3 / 2; Env.svp_bkz_time_factor := 1;
     Env.fpylll_crossover := 51; Env.tours := 0; Env.verbose := true;
     Env.blocksizes :=
       ((py_range 10 50 1 ++ py_range 70 (60 - 15) 10) ++ [60 - 15])
       ++ py_range (60 - 13) (60 + 25) 2;
     Env.d := 100 |}.

Definition stuck_start : @frame stuck_engines :=
  @Frame stuck_engines (1000000%R :: repeat 1%R 99)
    [SieverParams 1; SieverParams 1; Dict ∅] 1%nat 2%nat (INR 1) 2%nat [].

(** The locals of the toy run with the time factor at zero. *)
Definition zero_factor_env : Env.t :=
  {| Env.n := 40; Env.alpha := 5 / 1000; Env.q := 4093; Env.m := 99;
     Env.goal_margin := 3 / 2; Env.svp_bkz_time_factor := 0;
     Env.fpylll_crossover := 51; Env.tours := 1; Env.verbose := false;
     Env.blocksizes := py_range 10 50 1; Env.d := 100 |}.

(** A text without [:] and [,]. *)
Fixpoint no_separator (s : string) : bool :=
  match s with
  | EmptyString => true
  | String c s' =>
      negb (Ascii.eqb c ":") && negb (Ascii.eqb c ",") && no_separator s'
  end.

(** The documented value [low:high:inc] of [bkz/blocksizes]. *)
Definition explicit_spec (lo hi inc : Z) : string :=
  (decimal lo +:+ ":" +:+ decimal hi +:+ ":" +:+ decimal inc)%string.

(** The list of line 137 for the predicted blocksize [b]. *)
Definition default_schedule (b : Z) : list Z :=
  ((py_range 10 50 1 ++ py_range 70 (b - 15) 10) ++ [b - 15])
  ++ py_range (b - 13) (b + 25) 2.

(** * Properties *)

(** ** Numbers *)

Lemma ln2_pos : (0 < ln 2)%R.
Proof. pose proof ln_lt_2. lra. Qed.

Lemma expo_pos : (0 < expo)%R.
Proof. unfold expo. lra. Qed.

Lemma Int_part_bounds (x : R) :
  (IZR (Int_part x) <= x < IZR (Int_part x) + 1)%R.
Proof. destruct (base_Int_part x). lra. Qed.

Lemma Int_part_mono (x y : R) : (x <= y)%R -> Int_part x <= Int_part y.
Proof.
  intros Hxy.
  pose proof (Int_part_bounds x) as Hx. pose proof (Int_part_bounds y) as Hy.
  assert (IZR (Int_part x) < IZR (Int_part y + 1))%R as Hlt
    by (rewrite plus_IZR; lra).
  apply lt_IZR in Hlt. lia.
Qed.

Lemma Int_part_nonneg (x : R) : (0 <= x)%R -> 0 <= Int_part x.
Proof.
  intros Hx. pose proof (Int_part_bounds x) as Hb.
  assert (IZR (-1) < IZR (Int_part x))%R as Hlt by lra.
  apply lt_IZR in Hlt. lia.
Qed.

Lemma py_int_mono (x y : R) : (x <= y)%R -> py_int x <= py_int y.
Proof.
  intros Hxy. unfold py_int.
  destruct (Rle_dec 0 x) as [Hx | Hx], (Rle_dec 0 y) as [Hy | Hy].
  - by apply Int_part_mono.
  - exfalso. lra.
  - pose proof (Int_part_nonneg (- x)) as Hnx.
    pose proof (Int_part_nonneg y Hy) as Hny.
    assert (0 <= - x)%R as Hneg by lra. specialize (Hnx Hneg). lia.
  - assert (Int_part (- y) <= Int_part (- x)) by (apply Int_part_mono; lra).
    lia.
Qed.

Lemma py_int_floor (x : R) : (0 <= x)%R -> py_int x = Int_part x.
Proof. intros Hx. unfold py_int. by destruct (Rle_dec 0 x). Qed.

Lemma ln_mono (x y : R) : (0 < x)%R -> (x <= y)%R -> (ln x <= ln y)%R.
Proof.
  intros Hx [Hlt | ->]; [|lra].
  left. by apply ln_increasing.
Qed.

(** [2 ** y <= x] exactly when [y <= log2 x]. *)
Lemma pow2_le_iff (x y : R) :
  (0 < x)%R -> (pow2 y <= x)%R <-> (y <= ln x / ln 2)%R.
Proof.
  intros Hx. pose proof ln2_pos as H2. unfold pow2, Rpower.
  rewrite <- (exp_ln x) at 1 by done.
  assert (y <= ln x / ln 2 <-> y * ln 2 <= ln x)%R as ->.
  { split; intros Hle.
    - apply (Rmult_le_compat_r (ln 2)) in Hle; [|lra].
      unfold Rdiv in Hle. rewrite Rmult_assoc, Rinv_l, Rmult_1_r in Hle; lra.
    - apply (Rmult_le_compat_r (/ ln 2)) in Hle.
      + rewrite Rmult_assoc, Rinv_r, Rmult_1_r in Hle; [done | lra].
      + left. by apply Rinv_0_lt_compat. }
  split; intros Hle.
  - destruct Hle as [Hlt | Heq].
    + left. by apply exp_lt_inv.
    + right. by apply exp_inv.
  - destruct Hle as [Hlt | Heq].
    + left. by apply exp_increasing.
    + right. by rewrite Heq.
Qed.

Lemma pow2_pos (y : R) : (0 < pow2 y)%R.
Proof. unfold pow2, Rpower. apply exp_pos. Qed.

(** ** The threshold *)



(** ** The schedule *)

(** C7: on the specification [10:20:2] line 135 adds a [range] object to
    a list, which raises; with the range wrapped in [list(...)], as the
    default branch wraps its ranges, the schedule is [10..40) followed by
    10, 12, 14, 16, 18. *)
Theorem build_blocksizes_explicit_raises (b : Z) :
  build_blocksizes (Some "10:20:2"%string) b
  = Raised (TypeError "can only concatenate list (not range) to list")
  /\ build_blocksizes_listed "10:20:2"
     = Done (PyList (py_range 10 40 1 ++ [10; 12; 14; 16; 18])).
Proof. split; reflexivity. Qed.

(** ** The attainable dimension *)

Lemma attainable_SVP_dim_value (f T : R) (t : Z) :
  (0 < f * T * IZR t)%R ->
  attainable_SVP_dim f t T = Done (py_int (search_dim_budget f t T)).
Proof.
  intros Hpos. unfold attainable_SVP_dim, search_dim_budget, py_log.
  destruct (Rlt_dec 0 (f * T * IZR t)) as [_ | Hn]; [|done].
  simpl. do 2 f_equal.
Qed.

Lemma search_dim_budget_mono (f f' T T' : R) (t : Z) :
  (0 < f * T * IZR t)%R -> (f * T * IZR t <= f' * T' * IZR t)%R ->
  (search_dim_budget f t T <= search_dim_budget f' t T')%R.
Proof.
  intros Hpos Hle. unfold search_dim_budget.
  pose proof ln2_pos as H2. pose proof expo_pos as He.
  pose proof (ln_mono _ _ Hpos Hle) as Hln.
  apply Rplus_le_compat_l. unfold Rdiv.
  apply Rmult_le_compat_r; [left; by apply Rinv_0_lt_compat|].
  apply Rmult_le_compat_l; [|done].
  rewrite Rmult_1_l. left. by apply Rinv_0_lt_compat.
Qed.

(** A search in dimension [k] fits the budget exactly when [k] is at most
    [search_dim_budget]. *)
Lemma expected_search_time_fits (f T : R) (t k : Z) :
  (0 < f * T)%R -> 0 < t ->
  (expected_search_time k t <= f * T)%R
  <-> (IZR k <= search_dim_budget f t T)%R.
Proof.
  intros HfT Ht. apply IZR_lt in Ht.
  assert (0 < f * T * IZR t)%R as Hpos by (by apply Rmult_lt_0_compat).
  unfold expected_search_time, search_dim_budget.
  assert (pow2 (expo * IZR (k - 64)) / IZR t <= f * T
          <-> pow2 (expo * IZR (k - 64)) <= f * T * IZR t)%R as ->.
  { split; intros Hle.
    - apply (Rmult_le_compat_r (IZR t)) in Hle; [|lra].
      unfold Rdiv in Hle. rewrite Rmult_assoc, Rinv_l, Rmult_1_r in Hle; lra.
    - apply (Rmult_le_compat_r (/ IZR t)) in Hle.
      + rewrite (Rmult_assoc (f * T)), Rinv_r, Rmult_1_r in Hle; [done|lra].
      + left. by apply Rinv_0_lt_compat. }
  rewrite pow2_le_iff by done.
  replace (1 / expo * ln (f * T * IZR t) / ln 2)%R
    with (1 / expo * (ln (f * T * IZR t) / ln 2))%R by (unfold Rdiv; ring).
  set (L := (ln (f * T * IZR t) / ln 2)%R).
  rewrite minus_IZR. unfold expo. lra.
Qed.

Lemma search_dim_budget_small :
  search_dim_budget 1 1 (/ 2 ^ 20) = (64 - 20 * (1000 / 292))%R.
Proof.
  unfold search_dim_budget.
  replace (1 * / 2 ^ 20 * 1)%R with (/ 2 ^ 20)%R by lra.
  assert (0 < 2 ^ 20)%R as Hp by (apply pow_lt; lra).
  rewrite ln_Rinv, ln_pow by lra.
  replace (INR 20) with 20%R by (simpl; lra).
  pose proof ln2_pos. unfold expo. field. lra.
Qed.

(** C6, as stated, fails: after a microsecond of reduction ([T = 2^-20],
    one thread, factor 1) the budget is a negative dimension, about -4.49;
    [int] truncates it to -4 and its floor is -5. *)
Lemma attainable_SVP_dim_not_floor :
  (0 < 1 * / 2 ^ 20 * IZR 1)%R
  /\ attainable_SVP_dim 1 1 (/ 2 ^ 20) = Done (-4)
  /\ Int_part (search_dim_budget 1 1 (/ 2 ^ 20)) = -5.
Proof.
  assert (0 < 1 * / 2 ^ 20 * IZR 1)%R as Hpos.
  { assert (0 < / 2 ^ 20)%R by (apply Rinv_0_lt_compat, pow_lt; lra). lra. }
  split; [done|]. rewrite attainable_SVP_dim_value by done.
  rewrite search_dim_budget_small. split.
  - f_equal. unfold py_int.
    destruct (Rle_dec 0 (64 - 20 * (1000 / 292))) as [Hle | _]; [lra|].
    assert (4 = Int_part (- (64 - 20 * (1000 / 292)))) as <-; [|done].
    apply Int_part_spec. lra.
  - symmetry. apply Int_part_spec. lra.
Qed.

(** C6, amended: for a positive time, factor and thread count the result
    is the budget [64 + (1/C) log2 (f T t)] truncated toward zero; where
    the budget is not negative this is its floor, the largest dimension
    whose expected search time is within [f T]; and the result does not
    decrease when [T] or [f] grows. *)
Theorem attainable_SVP_dim_truncated_budget (f T : R) (t : Z) :
  (0 < f)%R -> (0 < T)%R -> 0 < t ->
  attainable_SVP_dim f t T = Done (py_int (search_dim_budget f t T))
  /\ ((0 <= search_dim_budget f t T)%R ->
      attainable_SVP_dim f t T = Done (Int_part (search_dim_budget f t T))
      /\ (expected_search_time (Int_part (search_dim_budget f t T)) t
          <= f * T)%R
      /\ forall k : Z, (expected_search_time k t <= f * T)%R ->
                       k <= Int_part (search_dim_budget f t T))
  /\ (forall T' : R, (T <= T')%R ->
      exists a a' : Z, attainable_SVP_dim f t T = Done a
                       /\ attainable_SVP_dim f t T' = Done a' /\ a <= a')
  /\ (forall f' : R, (f <= f')%R ->
      exists a a' : Z, attainable_SVP_dim f t T = Done a
                       /\ attainable_SVP_dim f' t T = Done a' /\ a <= a').
Proof.
  intros Hf HT Ht. pose proof (IZR_lt _ _ Ht) as Ht'.
  assert (0 < f * T)%R as HfT by (by apply Rmult_lt_0_compat).
  assert (0 < f * T * IZR t)%R as Hpos by (by apply Rmult_lt_0_compat).
  split; [by apply attainable_SVP_dim_value|]. split; [|split].
  - intros Hb. rewrite attainable_SVP_dim_value, py_int_floor by done.
    pose proof (Int_part_bounds (search_dim_budget f t T)) as [Hlo Hhi].
    split; [done|]. split.
    + by apply expected_search_time_fits.
    + intros k Hk. apply expected_search_time_fits in Hk; [|done..].
      assert (IZR k < IZR (Int_part (search_dim_budget f t T) + 1))%R as Hlt
        by (rewrite plus_IZR; lra).
      apply lt_IZR in Hlt. lia.
  - intros T' HTT'.
    assert (f * T * IZR t <= f * T' * IZR t)%R as Hle.
    { apply Rmult_le_compat_r; [lra|]. apply Rmult_le_compat_l; lra. }
    eexists _, _. split; [by apply attainable_SVP_dim_value|].
    split; [apply attainable_SVP_dim_value; lra|].
    by apply py_int_mono, search_dim_budget_mono.
  - intros f' Hff'.
    assert (f * T * IZR t <= f' * T * IZR t)%R as Hle.
    { apply Rmult_le_compat_r; [lra|]. apply Rmult_le_compat_r; lra. }
    eexists _, _. split; [by apply attainable_SVP_dim_value|].
    split; [apply attainable_SVP_dim_value; lra|].
    by apply py_int_mono, search_dim_budget_mono.
Qed.

Lemma attainable_SVP_dim_truncated_budget_witness :
  attainable_SVP_dim 1 1 1 = Done (py_int (search_dim_budget 1 1 1)).
Proof.
  apply (attainable_SVP_dim_truncated_budget 1 1 1); first [lra | lia].
Defined.

(** ** The expected dimension of success *)

Lemma py_range_seqZ (lo hi : Z) : py_range lo hi 1 = seqZ lo (hi - lo).
Proof.
  unfold py_range, seqZ. simpl.
  replace ((hi - lo + 1 - 1) / 1) with (hi - lo) by (rewrite Z.div_1_r; lia).
  apply map_ext. intros i. lia.
Qed.

Section Scan.
Context `{External}.
Variables (target_norm goal_margin : R) (d : Z) (rr : list R).
Hypothesis margin_nonzero : goal_margin <> 0%R.

Local Abbreviation cond :=
  (success_condition target_norm goal_margin d rr).
Local Abbreviation scan :=
  (scan_n_expected target_norm goal_margin d rr).

Lemma scan_step (k : Z) (rest : list Z) (last : option Z) :
  scan (k :: rest) last
  = if Rgt_dec (4 / 3 * gaussian_heuristic (drop (Z.to_nat (d - k)) rr))
               (target_norm / goal_margin * IZR k / IZR d)
    then Done k else scan rest (Some k).
Proof.
  simpl. unfold fdiv. destruct (Req_dec_T goal_margin 0) as [|_]; [done|].
  simpl. by rewrite Rmult_1_l.
Qed.

(** The scan over the candidates [lo, lo+1, ..., lo+n-1]: the first
    that meets the condition, else the last one tried. *)
Lemma scan_consecutive (n : nat) : forall (lo : Z) (last : option Z),
  (exists k, lo <= k < lo + Z.of_nat n /\ cond k
             /\ (forall j, lo <= j < k -> ~ cond j)
             /\ scan (seqZ lo (Z.of_nat n)) last = Done k)
  \/ ((forall j, lo <= j < lo + Z.of_nat n -> ~ cond j)
      /\ scan (seqZ lo (Z.of_nat n)) last
         = match n, last with
           | S _, _ => Done (lo + Z.of_nat n - 1)
           | O, Some k => Done k
           | O, None => Raised (UnboundLocalError "n_expected")
           end).
Proof.
  induction n as [|n IH]; intros lo last.
  - right. split; [lia|]. by destruct last.
  - rewrite Nat2Z.inj_succ, seqZ_cons by lia.
    replace (Z.pred (Z.succ (Z.of_nat n))) with (Z.of_nat n) by lia.
    rewrite scan_step.
    destruct (Rgt_dec _ _) as [Hc | Hc].
    + left. exists lo. split; [lia|]. split; [exact Hc|].
      split; [intros j Hj; lia | done].
    + destruct (IH (Z.succ lo) (Some lo))
        as [(k & Hk & Hck & Hmin & Hscan) | [Hnone Hscan]].
      * left. exists k. split; [lia|]. split; [done|]. split; [|done].
        intros j Hj. destruct (decide (j = lo)) as [->|]; [done|].
        apply Hmin. lia.
      * right. split.
        { intros j Hj. destruct (decide (j = lo)) as [->|]; [done|].
          apply Hnone. lia. }
        rewrite Hscan. destruct n; f_equal; lia.
Qed.
End Scan.

Section ExpectedDim.
Context `{External}.
Variables (target_norm goal_margin : R) (d : Z) (w : World).

(** The profile the scan reads: the argument, or the diagonal of the
    Gram-Schmidt matrix of [w]. *)
Local Abbreviation profile rr :=
  (default (map (fun i => get_r w i i) (py_range 0 d 1)) rr).
Local Abbreviation cond rr :=
  (success_condition target_norm goal_margin d (profile rr)).

Lemma expected_successful_SVP_dim_cases (rr : option (list R)) :
  goal_margin <> 0%R -> 3 <= d ->
  (exists k, 2 <= k < d /\ cond rr k /\ (forall j, 2 <= j < k -> ~ cond rr j)
             /\ expected_successful_SVP_dim target_norm goal_margin d w rr
                = Done k)
  \/ ((forall j, 2 <= j < d -> ~ cond rr j)
      /\ expected_successful_SVP_dim target_norm goal_margin d w rr
         = Done (d - 1)).
Proof.
  intros Hgm Hd.
  assert (expected_successful_SVP_dim target_norm goal_margin d w rr
          = scan_n_expected target_norm goal_margin d (profile rr)
                            (seqZ 2 (Z.of_nat (Z.to_nat (d - 2)))) None)
    as ->.
  { unfold expected_successful_SVP_dim. rewrite (py_range_seqZ 2 d).
    rewrite Z2Nat.id by lia. by destruct rr. }
  destruct (scan_consecutive target_norm goal_margin d (profile rr) Hgm
              (Z.to_nat (d - 2)) 2 None)
    as [(k & Hk & Hc & Hmin & Hscan) | [Hnone Hscan]].
  - left. exists k. split; [lia|]. done.
  - right. split; [intros j Hj; apply Hnone; lia|].
    rewrite Hscan. destruct (Z.to_nat (d - 2)) eqn:E; [lia|].
    f_equal. lia.
Qed.

(** With at most two dimensions there is no candidate, and the loop
    variable is read unbound. *)
Lemma expected_successful_SVP_dim_no_candidate (rr : option (list R)) :
  d <= 2 ->
  expected_successful_SVP_dim target_norm goal_margin d w rr
  = Raised (UnboundLocalError "n_expected").
Proof.
  intros Hd. unfold expected_successful_SVP_dim.
  rewrite (py_range_seqZ 2 d). unfold seqZ.
  replace (Z.to_nat (d - 2)) with O by lia. done.
Qed.

(** C5, amended: over three dimensions or more, with a positive target
    and margin, the result lies in [2, d); it is the smallest candidate
    that meets the success condition when there is one, and [d - 1],
    the last candidate, when there is none. *)
Theorem expected_successful_SVP_dim_first_or_last (rr : option (list R)) :
  (0 < target_norm)%R -> (0 < goal_margin)%R -> 3 <= d ->
  exists k : Z,
    expected_successful_SVP_dim target_norm goal_margin d w rr = Done k
    /\ 2 <= k < d
    /\ ((cond rr k /\ forall j, 2 <= j < k -> ~ cond rr j)
        \/ (k = d - 1 /\ forall j, 2 <= j < d -> ~ cond rr j)).
Proof.
  intros _ Hgm Hd.
  destruct (expected_successful_SVP_dim_cases rr)
    as [(k & Hk & Hc & Hmin & Heq) | [Hnone Heq]]; [lra | done | |].
  - exists k. split; [done|]. split; [done|]. by left.
  - exists (d - 1). split; [done|]. split; [lia|]. by right.
Qed.

(** C2, amended: over three dimensions or more, when no candidate in
    [2, d) meets the success condition the scan ends and returns
    [d - 1]; nothing is raised. *)
Theorem expected_successful_SVP_dim_degenerate_returns
    (rr : option (list R)) :
  goal_margin <> 0%R -> 3 <= d ->
  (forall k, 2 <= k < d -> ~ cond rr k) ->
  expected_successful_SVP_dim target_norm goal_margin d w rr
  = Done (d - 1).
Proof.
  intros Hgm Hd Hnone.
  destruct (expected_successful_SVP_dim_cases rr Hgm Hd)
    as [(k & Hk & Hc & _) | [_ Heq]]; [|done].
  exfalso. by apply (Hnone k).
Qed.
End ExpectedDim.

(** The closed form on two unit norms: [1 / pi]. *)
Lemma gaussian_heuristic_closed_form_pair (a : R) :
  (0 < a)%R -> gaussian_heuristic_closed_form [a; a] = (a / PI)%R.
Proof.
  intros Ha. pose proof PI_RGT_0 as Hpi.
  unfold gaussian_heuristic_closed_form. simpl.
  replace (2 * PI / (1 + 1) * 1)%R with PI by lra.
  replace (1 / (1 + 1) * (ln a + (ln a + 0) - 2 * ln PI))%R
    with (ln a - ln PI)%R by lra.
  unfold Rminus. rewrite exp_plus, exp_Ropp, !exp_ln by done. done.
Qed.

Lemma PI_gt_3 : (3 < PI)%R.
Proof. pose proof PI2_3_2. lra. Qed.

Lemma idle_condition_fails (target : R) :
  (1 <= target)%R ->
  ~ @success_condition (idle_engines None) target 1 3 [1; 1; 1]%R 2.
Proof.
  intros Ht. unfold success_condition. simpl.
  rewrite gaussian_heuristic_closed_form_pair by lra.
  pose proof PI_gt_3 as Hpi.
  assert (1 / PI < 1 / 3)%R.
  { unfold Rdiv. rewrite !Rmult_1_l. apply Rinv_lt_contravar; lra. }
  lra.
Qed.

(** C5, as stated, fails: on the profile [1, 1, 1] with target 1000 and
    margin 1 the only candidate, 2, does not meet the success condition,
    and 2 is returned all the same; over two dimensions nothing is
    returned at all. *)
Lemma expected_successful_SVP_dim_not_smallest :
  @expected_successful_SVP_dim (idle_engines None) 1000 1 3 []
     (Some [1; 1; 1]%R) = Done 2
  /\ ~ @success_condition (idle_engines None) 1000 1 3 [1; 1; 1]%R 2
  /\ @expected_successful_SVP_dim (idle_engines None) 1000 1 2 []
       (Some [1; 1]%R) = Raised (UnboundLocalError "n_expected").
Proof.
  assert (~ @success_condition (idle_engines None) 1000 1 3 [1; 1; 1]%R 2)
    as Hfail by (apply idle_condition_fails; lra).
  split; [|split; [done|]].
  - destruct (@expected_successful_SVP_dim_cases (idle_engines None)
                1000 1 3 [] (Some [1; 1; 1]%R))
      as [(k & Hk & Hc & _) | [_ Heq]]; [lra | lia | | done].
    exfalso. by replace k with 2 in Hc by lia.
  - by apply expected_successful_SVP_dim_no_candidate.
Qed.

Lemma expected_successful_SVP_dim_first_or_last_witness :
  exists k : Z,
    @expected_successful_SVP_dim (idle_engines None) 1000 1 3 []
       (Some [1; 1; 1]%R) = Done k
    /\ 2 <= k < 3
    /\ ((@success_condition (idle_engines None) 1000 1 3 [1; 1; 1]%R k
         /\ forall j, 2 <= j < k ->
              ~ @success_condition (idle_engines None) 1000 1 3
                  [1; 1; 1]%R j)
        \/ (k = 3 - 1
            /\ forall j, 2 <= j < 3 ->
                 ~ @success_condition (idle_engines None) 1000 1 3
                     [1; 1; 1]%R j)).
Proof.
  apply (@expected_successful_SVP_dim_first_or_last (idle_engines None)
           1000 1 3 [] (Some [1; 1; 1]%R)); first [lra | lia].
Defined.

(** C2, as stated, fails: on the profile [1, 1, 1] with target 5 and
    margin 1 no candidate meets the success condition, and the scan
    returns 2: no error is raised. *)
Lemma expected_successful_SVP_dim_no_error :
  (forall k, 2 <= k < 3 ->
     ~ @success_condition (idle_engines None) 5 1 3 [1; 1; 1]%R k)
  /\ @expected_successful_SVP_dim (idle_engines None) 5 1 3 []
       (Some [1; 1; 1]%R) = Done 2.
Proof.
  assert (forall k, 2 <= k < 3 ->
            ~ @success_condition (idle_engines None) 5 1 3 [1; 1; 1]%R k)
    as Hnone.
  { intros k Hk. replace k with 2 by lia. apply idle_condition_fails. lra. }
  split; [done|].
  destruct (@expected_successful_SVP_dim_cases (idle_engines None)
              5 1 3 [] (Some [1; 1; 1]%R))
    as [(k & Hk & Hc & _) | [_ Heq]]; [lra | lia | | done].
  exfalso. by apply (Hnone k).
Qed.

Lemma expected_successful_SVP_dim_degenerate_returns_witness :
  @expected_successful_SVP_dim (idle_engines None) 5 1 3 []
     (Some [1; 1; 1]%R) = Done (3 - 1).
Proof.
  apply (@expected_successful_SVP_dim_degenerate_returns (idle_engines None)
           5 1 3 [] (Some [1; 1; 1]%R)); [lra | lia |].
  intros k Hk. replace k with 2 by lia. apply idle_condition_fails. lra.
Defined.

(** ** Running the kernel by hand *)

(** A run is followed through an equation [m s = (r, s')]: [run_step]
    splits it on the innermost test it is stuck on. *)
Ltac run_step E :=
  match type of E with
  | context [match ?x with _ => _ end] =>
      lazymatch x with
      | context [match _ with _ => _ end] => fail
      | _ => destruct x eqn:?; simpl in E
      end
  end.

(** ** The lookahead: what it does to the frame *)

Section LookaheadFrame.
Context `{External}.

(** One step of the lookahead, for a blocksize the constructor accepts,
    on a frame whose table holds a duration for the previous
    blocksize. *)
Lemma lookahead_cons (rblock : Z) (rest : list Z) (previous : Z)
    (rr : list R) (extra : R) (t : loc) (frr : list (list R))
    (ets : list R) (s : frame) (items : gmap Z R) (v : R) :
  0 < rblock ->
  store s !! t = Some (Dict items) ->
  items !! previous = Some v ->
  let T := (v * pow2 (expo * IZR (rblock - previous)))%R in
  lookahead (rblock :: rest) previous rr extra t frr ets s
  = lookahead rest rblock (simulate rr rblock 1) (extra + T)%R t
      (frr ++ [simulate rr rblock 1]) (ets ++ [(extra + T)%R])
      (Frame _ (g6k s)
             (<[t := Dict (<[rblock := T]> items)]>
                (store s ++ [BKZParam rblock 1]))
             (length (store s)) (T_blocksizes s) (T0_BKZ s) (clock s)
             (log s)).
Proof.
  intros Hpos Ht Hv. simpl.
  assert ((store s ++ [BKZParam rblock 1]) !! t = Some (Dict items)) as Ht'
    by (by apply lookup_app_l_Some).
  unfold bind, BKZ_Param, check_block_size, alloc, set_params, dict_get,
    dict_set, bind, ret.
  destruct (Z.leb_spec rblock 0) as [|_]; [lia|]. simpl.
  rewrite Ht'. rewrite Hv. simpl. rewrite ?Ht'. done.
Qed.

(** A blocksize the constructor refuses ends the lookahead there. *)
Lemma lookahead_refused (rblock : Z) (rest : list Z) (previous : Z)
    (rr : list R) (extra : R) (t : loc) (frr : list (list R))
    (ets : list R) (s : frame) :
  rblock <= 0 ->
  lookahead (rblock :: rest) previous rr extra t frr ets s
  = (Raised (ValueError "block size must be > 0"), s).
Proof.
  intros Hneg. simpl.
  unfold bind, BKZ_Param, check_block_size, raise, bind.
  by destruct (Z.leb_spec rblock 0) as [_|]; [|lia].
Qed.

(** The lookahead leaves the world, the log and the clock alone, the
    table stays where it is, and the error of the exhausted schedule
    does not come out of it. *)
Lemma lookahead_quiet (remaining : list Z) :
  forall previous rr extra t frr ets s r s',
    lookahead remaining previous rr extra t frr ets s = (r, s') ->
    g6k s' = g6k s /\ log s' = log s /\ clock s' = clock s
    /\ T_blocksizes s' = T_blocksizes s /\ T0_BKZ s' = T0_BKZ s
    /\ r <> Raised (ValueError "No solution found.").
Proof.
  induction remaining as [|rblock rest IH]; intros * E; simpl in E.
  - by injection E as <- <-.
  - unfold bind, BKZ_Param, check_block_size, raise, ret, alloc,
      set_params, dict_get, dict_set, bind in E. simpl in E.
    repeat run_step E; try (by injection E as <- <-).
    by apply IH in E.
Qed.

(** The table is older than a parameter object just allocated. *)
Lemma table_below_parameters (st : list obj) (bs loops : Z) (t : loc)
    (items : gmap Z R) :
  (st ++ [BKZParam bs loops]) !! t = Some (Dict items) ->
  (t < length st)%nat.
Proof.
  intros Hl. pose proof (lookup_lt_Some _ _ _ Hl) as Hlt.
  rewrite length_app in Hlt. simpl in Hlt.
  destruct (decide (t = length st)) as [->|]; [|lia].
  by rewrite lookup_app_r, Nat.sub_diag in Hl.
Qed.

(** After a lookahead over at least one blocksize the name [params] is
    bound to a parameter object of the simulator, allocated by the
    lookahead. *)
Lemma lookahead_rebinds_params (remaining : list Z) :
  forall previous rr extra t frr ets s out s',
    remaining <> [] ->
    lookahead remaining previous rr extra t frr ets s = (Done out, s') ->
    (length (store s) <= params s')%nat
    /\ exists rblock, last remaining = Some rblock
                      /\ store s' !! params s' = Some (BKZParam rblock 1).
Proof.
  induction remaining as [|rblock rest IH]; intros * Hne E; [done|].
  simpl in E.
  unfold bind, BKZ_Param, check_block_size, raise, ret, alloc, set_params,
    dict_get, dict_set, bind in E. simpl in E.
  repeat run_step E; try done.
  destruct rest as [|rblock' rest].
  - injection E as <- <-. simpl. split; [done|]. exists rblock.
    split; [done|].
    assert (Hlt : (t < length (store s))%nat)
      by eauto using table_below_parameters.
    rewrite list_lookup_insert_ne by lia.
    by rewrite lookup_app_r, Nat.sub_diag.
  - apply IH in E; [|done]. simpl in E.
    rewrite length_insert, length_app in E. simpl in E.
    destruct E as [Hle Hex]. split; [lia|]. done.
Qed.

(** So after such a lookahead the thread count is read from the
    parameter object of the simulator, whatever the run was given. *)
Lemma lookahead_thread_source (remaining : list Z) (previous : Z)
    (rr : list R) (extra : R) (t : loc) (frr : list (list R))
    (ets : list R) (s : frame) (out : list (list R) * list R)
    (s' : frame) :
  remaining <> [] ->
  lookahead remaining previous rr extra t frr ets s = (Done out, s') ->
  exists rblock,
    last remaining = Some rblock
    /\ params_threads s'
       = (match BKZParam_threads rblock 1 with
          | Some threads => Done threads
          | None => Raised (AttributeError "threads")
          end, s').
Proof.
  intros Hne E.
  destruct (lookahead_rebinds_params _ _ _ _ _ _ _ _ _ _ Hne E)
    as (_ & rblock & Hlast & Hp).
  exists rblock. split; [done|]. unfold params_threads. by rewrite Hp.
Qed.

(** The lookahead writes into the table it is given: after it, the
    table holds a duration for every blocksize of the window, next to
    the durations it held before. *)
Lemma lookahead_table_grows (remaining : list Z) :
  forall previous rr extra t frr ets s out s' items,
    store s !! t = Some (Dict items) ->
    lookahead remaining previous rr extra t frr ets s = (Done out, s') ->
    exists items',
      store s' !! t = Some (Dict items')
      /\ (forall k, is_Some (items !! k) -> is_Some (items' !! k))
      /\ (forall k, k ∈ remaining -> is_Some (items' !! k)).
Proof.
  induction remaining as [|rblock rest IH]; intros * Ht E.
  - injection E as <- <-. exists items. split; [done|]. split; [done|].
    intros k Hk. by apply elem_of_nil in Hk.
  - simpl in E.
    unfold bind, BKZ_Param, check_block_size, raise, ret, alloc,
      set_params, dict_get, dict_set, bind in E. simpl in E.
    repeat run_step E; try done.
    match goal with
    | Hl : (store s ++ _) !! t = Some (Dict ?i) |- _ =>
        pose proof (table_below_parameters _ _ _ _ _ Hl) as Hlt;
        rewrite lookup_app_l in Hl by done;
        assert (i = items) as -> by congruence
    end.
    eapply IH in E; [|simpl; apply list_lookup_insert_eq;
                      rewrite length_app; simpl; lia].
    destruct E as (items' & Hs' & Hold & Hnew).
    exists items'. split; [done|]. split.
    + intros k Hk. apply Hold.
      destruct (decide (rblock = k)) as [->|].
      * rewrite lookup_insert_eq. by eexists.
      * by rewrite lookup_insert_ne.
    + intros k [->|Hk]%elem_of_cons; [|by apply Hnew].
      apply Hold. rewrite lookup_insert_eq. by eexists.
Qed.
End LookaheadFrame.

(** ** The lookahead on a run after its first tour *)

Section AfterFirstTour.
Variable predict : list R -> Z -> Z -> list R.
Let s0 := after_first_tour predict.

(** The frame after a lookahead over the window [11]. *)
Lemma lookahead_after_first_tour :
  lookahead [11] 10 (M_r (g6k s0)) 0 (T_blocksizes s0) [] [] s0
  = (Done ([predict (g6k s0) 11 1], [(0 + extrapolated_11)%R]),
     @Frame (engines None predict) (g6k s0)
       [SieverParams 4; SieverParams 4;
        Dict (<[11 := extrapolated_11]> {[10 := 2%R]}); BKZParam 11 1]
       3%nat 2%nat 1%R 5%nat [Tour 10]).
Proof.
  rewrite (lookahead_cons 11 [] 10 _ _ _ _ _ s0 {[10 := 2%R]} 2%R);
    [done | lia | done | apply lookup_singleton_eq].
Qed.
End AfterFirstTour.

(** C4: the lookahead writes its extrapolations into the table of the
    run.  After one tour, at blocksize 10, a lookahead over the window
    [11] leaves in [T_blocksizes] a duration for blocksize 11, the
    extrapolation [2 * 2^(C*(11-10))], though the log shows no tour at
    that blocksize. *)
Theorem lookahead_extrapolation_in_real_table :
  let s0 := after_first_tour (fun rr _ _ => rr) in
  let s1 := (lookahead [11] 10 (M_r (g6k s0)) 0 (T_blocksizes s0) [] [] s0).2 in
  log s1 = [Tour 10]
  /\ exists items,
       store s1 !! T_blocksizes s1 = Some (Dict items)
       /\ items !! 10 = Some 2%R
       /\ items !! 11 = Some extrapolated_11.
Proof.
  intros s0 s1. subst s0 s1. rewrite lookahead_after_first_tour. simpl.
  split; [done|]. eexists. split; [done|].
  split; [by rewrite lookup_insert_ne | by rewrite lookup_insert_eq].
Qed.

(** C3: the lookahead rebinds [params].  Before it the name is bound to
    the parameters the siever was built from, on four threads; after a
    lookahead over the window [11] it is bound to the parameter object of
    the simulator, and the thread count is read from that object, which
    has none; the run's parameters are still in the store, unnamed. *)
Theorem lookahead_rebinds_thread_source :
  let s0 := after_first_tour (fun rr _ _ => rr) in
  let s1 := (lookahead [11] 10 (M_r (g6k s0)) 0 (T_blocksizes s0) [] [] s0).2 in
  store s0 !! params s0 = Some (SieverParams 4)
  /\ (params_threads s0).1 = Done 4
  /\ store s1 !! params s1 = Some (BKZParam 11 1)
  /\ (params_threads s1).1 = Raised (AttributeError "threads")
  /\ store s1 !! params s0 = Some (SieverParams 4).
Proof.
  intros s0 s1. subst s0 s1. rewrite lookahead_after_first_tour. done.
Qed.

(** ** The decision of the lookahead *)

Lemma pow2_mono (x y : R) : (x <= y)%R -> (pow2 x <= pow2 y)%R.
Proof. intros Hxy. unfold pow2. apply Rle_Rpower; lra. Qed.

Lemma pow2_0 : pow2 0 = 1%R.
Proof. unfold pow2. apply Rpower_O. lra. Qed.

Lemma pow2_1 : pow2 1 = 2%R.
Proof. unfold pow2. apply Rpower_1. lra. Qed.

Lemma pow2_opp_1 : pow2 (-1) = (/ 2)%R.
Proof.
  unfold pow2. replace (-1)%R with (- (1))%R by lra.
  rewrite Rpower_Ropp, Rpower_1; lra.
Qed.

Lemma pow2_nat (n : nat) : pow2 (INR n) = (2 ^ n)%R.
Proof. unfold pow2. apply Rpower_pow. lra. Qed.

Section Decision.
Context `{External}.
Variables (target_norm goal_margin : R) (d : Z).
Hypothesis margin_nonzero : goal_margin <> 0%R.
Hypothesis three_dimensions : 3 <= d.

(** The first candidate is returned when it meets the condition. *)
Lemma expected_successful_SVP_dim_first (w : World) (rr : list R) :
  success_condition target_norm goal_margin d rr 2 ->
  expected_successful_SVP_dim target_norm goal_margin d w (Some rr)
  = Done 2.
Proof.
  intros Hc.
  destruct (expected_successful_SVP_dim_cases target_norm goal_margin d w
              (Some rr) margin_nonzero three_dimensions)
    as [(k & Hk & _ & Hmin & Heq) | [Hnone _]].
  - destruct (decide (k = 2)) as [->|]; [done|].
    exfalso. apply (Hmin 2); [lia | done].
  - exfalso. apply (Hnone 2); [lia | done].
Qed.

(** Where the thread count can be read and is not zero, the loop sets
    [more_BKZ] exactly when some step recommends more reduction on the
    thread count it reads. *)
Lemma decide_more_BKZ_rule (current_n_expected threads : Z) (s : frame) :
  params_threads s = (Done threads, s) -> threads <> 0 ->
  forall (steps : list (list R * R)) (more_BKZ : bool),
  exists b : bool,
    decide_more_BKZ target_norm goal_margin d current_n_expected steps
                    more_BKZ s = (Done b, s)
    /\ (b = true <->
        more_BKZ = true
        \/ Exists (step_recommends target_norm goal_margin d (g6k s)
                                    current_n_expected threads) steps).
Proof.
  intros Hthr Hnz steps.
  induction steps as [|[rr extra] rest IH]; intros more_BKZ.
  - exists more_BKZ. split; [done|]. rewrite Exists_nil. tauto.
  - simpl. unfold bind at 1. unfold get at 1. simpl.
    unfold bind at 1. unfold lift at 1. simpl.
    destruct (expected_successful_SVP_dim_cases target_norm goal_margin d
                (g6k s) (Some rr) margin_nonzero three_dimensions)
      as [(k & _ & _ & _ & Heq) | [_ Heq]];
      [|set (k := d - 1) in *]; rewrite Heq; simpl.
    all: assert (step_recommends target_norm goal_margin d (g6k s)
                                 current_n_expected threads (rr, extra)
                 <-> 0 < current_n_expected - k
                     /\ (extra < (1 - pow2 (- expo
                                            * IZR (current_n_expected - k)))
                                 * expected_search_time current_n_expected
                                     threads)%R) as Hstep
        by (unfold step_recommends; simpl; rewrite Heq; split;
            [intros (k' & [= <-] & ?); done | intros ?; by exists k]).
    all: destruct (0 <=? k - current_n_expected) eqn:Hdec.
    all: try (destruct (IH more_BKZ) as (b & Hb & Hiff); exists b;
              split; [done|]; rewrite Hiff, Exists_cons, Hstep;
              apply Z.leb_le in Hdec; intuition lia).
    all: apply Z.leb_gt in Hdec.
    all: unfold bind at 1; rewrite Hthr; simpl.
    all: unfold bind at 1, lift at 1, fdiv; simpl.
    all: destruct (Req_dec_T (IZR threads) 0) as [Hz | _];
      [by apply eq_IZR in Hz|]; simpl.
    all: replace (expo * IZR (k - current_n_expected))%R
           with (- expo * IZR (current_n_expected - k))%R
           by (rewrite !minus_IZR; ring).
    all: fold (expected_search_time current_n_expected threads).
    all: destruct (Rlt_dec _ _) as [Hlt | Hge].
    all: try (destruct (IH true) as (b & Hb & Hiff); exists b;
              split; [done|]; rewrite Exists_cons, Hstep;
              split; [intros _; right; left; split; [lia | done]
                     | intros _; apply Hiff; by left]).
    all: destruct (IH more_BKZ) as (b & Hb & Hiff); exists b;
      split; [done|]; rewrite Hiff, Exists_cons, Hstep; tauto.
Qed.
End Decision.

(** ** A lookahead with an improving step *)

Lemma improving_tail (rr : list R) (bs loops : Z) :
  drop (Z.to_nat (100 - 2)) (improving rr bs loops)
  = [1000000; 1000000]%R.
Proof. reflexivity. Qed.

Lemma improving_condition (rr : list R) (bs loops : Z) :
  @success_condition (engines None improving) (env_target_norm run_env)
     (3 / 2) 100 (improving rr bs loops) 2.
Proof.
  unfold success_condition. rewrite improving_tail.
  change (@gaussian_heuristic (engines None improving))
    with gaussian_heuristic_closed_form.
  rewrite gaussian_heuristic_closed_form_pair by lra.
  pose proof PI_RGT_0 as Hpos. pose proof PI_4 as H4.
  assert (250000 <= 1000000 / PI)%R as Hq.
  { apply (Rmult_le_reg_r PI); [done|].
    unfold Rdiv. rewrite Rmult_assoc, Rinv_l by lra. lra. }
  unfold env_target_norm, target_norm, run_env. simpl. lra.
Qed.

Lemma improving_dim (w : list R) (rr : list R) (bs loops : Z) :
  @expected_successful_SVP_dim (engines None improving)
     (env_target_norm run_env) (3 / 2) 100 w (Some (improving rr bs loops))
  = Done 2.
Proof.
  apply (@expected_successful_SVP_dim_first (engines None improving));
    [lra | lia | apply improving_condition].
Qed.

Lemma extrapolated_11_bound : (extrapolated_11 <= 4)%R.
Proof.
  unfold extrapolated_11.
  assert (pow2 (expo * IZR (11 - 10)) <= pow2 1)%R as Hle.
  { apply pow2_mono. unfold expo. rewrite minus_IZR. lra. }
  rewrite pow2_1 in Hle. lra.
Qed.

Lemma saving_bound :
  (16 <= (1 - pow2 (- expo * IZR (90 - 2))) * expected_search_time 90 4)%R.
Proof.
  assert (pow2 (- expo * IZR (90 - 2)) <= / 2)%R as Ha.
  { rewrite <- pow2_opp_1. apply pow2_mono. unfold expo.
    rewrite minus_IZR. lra. }
  assert (128 <= pow2 (expo * IZR (90 - 64)))%R as Hb.
  { replace 128%R with (pow2 (INR 7)) by (rewrite pow2_nat; simpl; lra).
    apply pow2_mono. unfold expo. rewrite minus_IZR. simpl. lra. }
  unfold expected_search_time.
  set (a := pow2 (- expo * IZR (90 - 2))) in *.
  set (b := pow2 (expo * IZR (90 - 64))) in *.
  assert (/ 2 * 32 <= (1 - a) * (b / 4))%R; [|lra].
  apply Rmult_le_compat; lra.
Qed.

Section Round.
Context `{External}.

Lemma decide_more_BKZ_cons (target goal_margin : R) (d current : Z)
    (rr : list R) (extra : R) (rest : list (list R * R))
    (more_BKZ : bool) :
  decide_more_BKZ target goal_margin d current ((rr, extra) :: rest)
                  more_BKZ
  = (let! s := get in
     let! potential :=
       lift (expected_successful_SVP_dim target goal_margin d (g6k s)
                                         (Some rr)) in
     let svp_dim_dec := potential - current in
     if 0 <=? svp_dim_dec then
       decide_more_BKZ target goal_margin d current rest more_BKZ
     else
       let! threads := params_threads in
       let! time_SVP_current :=
         lift (fdiv (pow2 (expo * IZR (current - 64))) (IZR threads)) in
       if Rlt_dec extra
            ((1 - pow2 (expo * IZR svp_dim_dec)) * time_SVP_current)
       then decide_more_BKZ target goal_margin d current rest true
       else decide_more_BKZ target goal_margin d current rest more_BKZ).
Proof. reflexivity. Qed.

Lemma lookahead_nil (previous : Z) (rr : list R) (extra : R) (t : loc)
    (frr : list (list R)) (ets : list R) (s : frame) :
  lookahead [] previous rr extra t frr ets s = (Done (frr, ets), s).
Proof. reflexivity. Qed.

(** The round, once the position of the blocksize is known. *)
Lemma look_ahead_round_eq (e : Env.t) (blocksize current : Z) (w : World)
    (s : frame) (ind : nat) :
  py_index blocksize (Env.blocksizes e) = Done ind ->
  look_ahead_round e blocksize current w s
  = let (r, s') :=
      lookahead (take 2 (drop (S ind) (Env.blocksizes e))) blocksize
                (M_r w) 0 (T_blocksizes s) [] [] s in
    match r with
    | Done future =>
        decide_more_BKZ (env_target_norm e) (Env.goal_margin e) (Env.d e)
                        current (zip future.1 future.2) false s'
    | Raised x => (Raised x, s')
    | OutOfFuel => (OutOfFuel, s')
    end.
Proof.
  intros Hind. unfold look_ahead_round, bind, lift, get. by rewrite Hind.
Qed.

(** A step that improves reads the thread count; when that read raises,
    so does the loop. *)
Lemma decide_more_BKZ_raises (target goal_margin : R) (d current k : Z)
    (rr : list R) (extra : R) (rest : list (list R * R)) (more_BKZ : bool)
    (s : frame) (x : exn) :
  expected_successful_SVP_dim target goal_margin d (g6k s) (Some rr)
  = Done k ->
  k < current ->
  params_threads s = (Raised x, s) ->
  decide_more_BKZ target goal_margin d current ((rr, extra) :: rest)
                  more_BKZ s = (Raised x, s).
Proof.
  intros Hk Hlt Hthr. unfold params_threads in Hthr.
  injection Hthr as Hthr.
  simpl. unfold bind, get, lift. simpl.
  rewrite Hk. simpl.
  destruct (0 <=? k - current) eqn:Hdec; [apply Z.leb_le in Hdec; lia|].
  unfold params_threads. by rewrite Hthr.
Qed.
End Round.

(** C1: a lookahead with an improving step raises instead of asking for
    more reduction.  On a run on four threads, after its first tour at
    blocksize 10, the simulated profiles of the window [11, 12] bring the
    expected dimension of success from 90 down to 2, and the extrapolated
    extra time of the first step is within the time saved on four threads:
    by the rule of the specification the driver prefers more reduction.
    The loop reads the thread count through [params], which the lookahead
    has bound to the parameter object of the simulator, and the round
    ends in an [AttributeError]. *)
Theorem lookahead_improving_step_raises :
  let s0 := after_first_tour improving in
  (@look_ahead_round (engines None improving) run_env 10 90 (g6k s0) s0).1
  = Raised (AttributeError "threads")
  /\ @step_recommends (engines None improving) (env_target_norm run_env)
       (Env.goal_margin run_env) (Env.d run_env) (g6k s0) 90 4
       (improving (g6k s0) 11 1, (0 + extrapolated_11)%R).
Proof.
  intros s0. split.
  - rewrite (look_ahead_round_eq _ _ _ _ _ 0%nat) by reflexivity.
    change (take 2 (drop 1 (Env.blocksizes run_env))) with [11; 12].
    rewrite (lookahead_cons 11 [12] 10 _ _ _ _ _ s0 {[10 := 2%R]} 2%R);
      [|lia|done|apply lookup_singleton_eq].
    erewrite (lookahead_cons 12 [] 11);
      [|lia|reflexivity|apply lookup_insert_eq].
    rewrite lookahead_nil.
    cbn [fst snd app zip zip_with].
    erewrite decide_more_BKZ_raises;
      [done | apply improving_dim | lia | reflexivity].
  - exists 2. split; [apply improving_dim|]. split; [done|].
    pose proof extrapolated_11_bound. pose proof saving_bound. simpl. lra.
Qed.

(** ** The tour loop: what a run leaves in the log *)

Lemma count_app (kind : event -> bool) (l1 l2 : list event) :
  count kind (l1 ++ l2) = (count kind l1 + count kind l2)%nat.
Proof. induction l1 as [|ev l1 IH]; simpl; [done|]. rewrite IH. lia. Qed.

(** The texts of an error of [list.index] and of the error of the
    exhausted schedule differ in their first character. *)
Lemma string_app_cons (x : ascii) (a b : string) :
  (String x a +:+ b)%string = String x (a +:+ b).
Proof. reflexivity. Qed.

Lemma decimal_head (z : Z) :
  exists c s, decimal z = String c s /\ (nat_of_ascii c < 60)%nat.
Proof.
  unfold decimal.
  destruct (Z.to_int z) as [[]|[]]; simpl; eexists _, _;
    (split; [reflexivity | vm_compute; lia]).
Qed.

Lemma NotInList_message (x : Z) (c : ascii) (msg : string) :
  (60 <= nat_of_ascii c)%nat -> NotInList x <> ValueError (String c msg).
Proof.
  intros Hc. destruct (decimal_head x) as (c' & s' & Hd & Hc').
  unfold NotInList. rewrite Hd, string_app_cons. intros [= -> _]. lia.
Qed.

Section NoValueError.
Context `{External}.

Lemma attr_threads_no_ValueError (o : obj) (msg : string) :
  attr_threads o <> Raised (ValueError msg).
Proof. destruct o; simpl; [done| |done]. by destruct (BKZParam_threads _ _). Qed.

Lemma py_index_no_ValueError (x : Z) (l : list Z) :
  py_index x l <> Raised (ValueError "No solution found.").
Proof.
  induction l as [|y l IH]; simpl.
  - intros Hx.
    apply (NotInList_message x "N" "o solution found.");
      [vm_compute; lia | congruence].
  - destruct (Z.eq_dec y x); [done|].
    by destruct (py_index x l).
Qed.

Lemma shrink_llb_no_raise (target : R) (d : Z) (fuel : nat) (w : World) :
  forall (llb : Z) (x : exn), shrink_llb target d fuel w llb <> Raised x.
Proof.
  induction fuel as [|fuel IH]; intros llb x; simpl;
    destruct (Rlt_dec _ _); done.
Qed.

Lemma attainable_SVP_dim_no_ValueError (f : R) (t : Z) (T : R) :
  attainable_SVP_dim f t T <> Raised (ValueError "No solution found.").
Proof.
  unfold attainable_SVP_dim, py_log. by destruct (Rlt_dec _ _).
Qed.

Lemma scan_n_expected_no_ValueError (target goal_margin : R) (d : Z)
    (rr : list R) (cands : list Z) :
  forall (last : option Z) (msg : string),
    scan_n_expected target goal_margin d rr cands last
    <> Raised (ValueError msg).
Proof.
  induction cands as [|k cands IHc]; intros last msg.
  - simpl. by destruct last.
  - simpl. unfold fdiv. destruct (Req_dec_T goal_margin 0); [done|].
    simpl. destruct (Rgt_dec _ _); [done | apply IHc].
Qed.

Lemma expected_successful_SVP_dim_no_ValueError (target goal_margin : R)
    (d : Z) (w : World) (rr : option (list R)) (msg : string) :
  expected_successful_SVP_dim target goal_margin d w rr
  <> Raised (ValueError msg).
Proof. apply scan_n_expected_no_ValueError. Qed.
End NoValueError.

Section Runs.
Context `{External}.
Variable e : Env.t.

Local Arguments lookahead : simpl never.
Local Arguments decide_more_BKZ : simpl never.
Local Arguments look_ahead_round : simpl never.
Local Arguments escalate : simpl never.
Local Arguments attainable_SVP_dim : simpl never.
Local Arguments expected_successful_SVP_dim : simpl never.
Local Arguments shrink_llb : simpl never.
Local Arguments goal_reached : simpl never.
Local Arguments py_index : simpl never.
Local Arguments tour : simpl never.

(** The decision loop leaves the frame as it is. *)
Lemma decide_more_BKZ_quiet (target goal_margin : R) (d current : Z)
    (steps : list (list R * R)) :
  forall more_BKZ s r s',
    decide_more_BKZ target goal_margin d current steps more_BKZ s = (r, s')
    -> s' = s /\ r <> Raised (ValueError "No solution found.").
Proof.
  induction steps as [|[rr extra] rest IH]; intros * E.
  - by injection E as <- <-.
  - rewrite decide_more_BKZ_cons in E.
    unfold bind, get, lift, params_threads, fdiv in E. simpl in E.
    unfold expected_successful_SVP_dim in E.
    assert (forall cands last msg,
              scan_n_expected target goal_margin d rr cands last
              <> Raised (ValueError msg)) as Hscan.
    { intros cands. induction cands as [|k cands IHc]; intros last msg.
      - simpl. by destruct last.
      - simpl. unfold fdiv. destruct (Req_dec_T goal_margin 0); [done|].
        simpl. destruct (Rgt_dec _ _); [done | apply IHc]. }
    repeat run_step E;
      try (by injection E as <- <-; split; [done | intros ?;
             simplify_eq; by eapply Hscan]);
      try (by injection E as <- <-);
      try (by apply IH in E).
  injection E as <- <-. split; [done|]. intros [= ->].
  by eapply attr_threads_no_ValueError.
Qed.

(** The round of the lookahead leaves the world and the log alone. *)
Lemma look_ahead_round_quiet (blocksize current : Z) (w : World)
    (s : frame) (r : res bool) (s' : frame) :
  look_ahead_round e blocksize current w s = (r, s') ->
  g6k s' = g6k s /\ log s' = log s
  /\ r <> Raised (ValueError "No solution found.").
Proof.
  intros E. unfold look_ahead_round, bind, lift, get in E. simpl in E.
  destruct (py_index blocksize (Env.blocksizes e)) as [ind|x|] eqn:Hind;
    [| injection E as <- <-; split; [done|]; split; [done|];
       intros [= ->]; by apply (py_index_no_ValueError _ _ Hind)
     | by injection E as <- <-].
  destruct (lookahead _ _ _ _ _ _ _ s) as [r1 s1] eqn:Hl.
  apply lookahead_quiet in Hl as (Hg & Hlog & _ & _ & _ & Hnv).
  destruct r1 as [future|x|];
    [| injection E as <- <-; split; [done|]; split; [done|];
       intros [= ->]; by apply Hnv
     | by injection E as <- <-].
  apply decide_more_BKZ_quiet in E as [-> Hnv']. done.
Qed.

(** With [verbose] set the larger search ends at its status message,
    on the unbound name, before the search engine is called; it can
    only fail to get there by not leaving the loop on [llb]. *)
Lemma escalate_verbose (fuel : nat) (blocksize current_n_max : Z)
    (w : World) (s : frame) :
  Env.verbose e = true ->
  escalate e fuel blocksize current_n_max w s
  = (match shrink_llb (env_target_norm e) (Env.d e) fuel w
             (Env.d e - blocksize) with
     | Done _ => Raised (NameError "svp_Tmax")
     | Raised x => Raised x
     | OutOfFuel => OutOfFuel
     end, s).
Proof.
  intros Hv. unfold escalate, bind, lift, when_verbose, raise.
  rewrite Hv. by destruct (shrink_llb _ _ _ _ _).
Qed.

(** What the larger search leaves behind. *)
Lemma escalate_run (fuel : nat) (blocksize current_n_max : Z) (w : World)
    (s : frame) (r : res ctl) (s' : frame) :
  escalate e fuel blocksize current_n_max w s = (r, s') ->
  count is_tour (log s') = count is_tour (log s)
  /\ (r = Done Break -> goal_reached e (g6k s') = true)
  /\ r <> Raised (ValueError "No solution found.")
  /\ (Env.verbose e = true -> log s' = log s).
Proof.
  intros E. destruct (Env.verbose e) eqn:Hv.
  - rewrite escalate_verbose in E by done.
    destruct (shrink_llb _ _ _ _ _) as [llb|x|] eqn:Hs;
      [|by apply shrink_llb_no_raise in Hs|]; injection E as <- <-; done.
  - unfold escalate, bind, lift, when_verbose, raise, ret, engine, time,
      set_T0_BKZ, get in E.
    rewrite Hv in E. simpl in E.
    destruct (shrink_llb _ _ _ _ _) as [llb|x|] eqn:Hs;
      [|by apply shrink_llb_no_raise in Hs|by injection E as <- <-].
    simpl in E.
    repeat run_step E; injection E as <- <-; simpl;
      rewrite ?count_app; simpl; (split; [lia|done]).
Qed.

(** What one iteration leaves behind: at most one more tour in the
    log, and one more when the iteration ends without raising; a
    [break] only with the goal reached; not the error of the exhausted
    schedule; and, with [verbose] set, no call of the search engine. *)
Lemma tour_run (fuel : nat) (blocksize : Z) (s : frame) (r : res ctl)
    (s' : frame) :
  tour e fuel blocksize s = (r, s') ->
  ((count is_tour (log s') <= S (count is_tour (log s)))%nat
   /\ (forall c, r = Done c ->
       count is_tour (log s') = S (count is_tour (log s))))
  /\ (r = Done Break -> goal_reached e (g6k s') = true)
  /\ r <> Raised (ValueError "No solution found.")
  /\ (Env.verbose e = true ->
      count is_pump (log s') = count is_pump (log s)).
Proof.
  intros E.
  unfold tour, bind, lift, when_verbose, raise, ret, engine, time,
    dict_set, params_threads, get, check_block_size, bind in E.
  simpl in E.
  repeat run_step E.
  all: repeat match goal with
         | Hl : look_ahead_round _ _ _ _ _ = _ |- _ =>
             apply look_ahead_round_quiet in Hl as (? & ? & ?)
         | Hx : escalate _ _ _ _ _ _ = _ |- _ =>
             apply escalate_run in Hx as (? & ? & ? & ?)
         | Hx : attainable_SVP_dim _ _ _ = Raised _ |- _ =>
             pose proof (attainable_SVP_dim_no_ValueError _ _ _) as ?Hnv;
             rewrite Hx in Hnv; clear Hx
         | Hx : expected_successful_SVP_dim _ _ _ _ _ = Raised _ |- _ =>
             pose proof (expected_successful_SVP_dim_no_ValueError
                           _ _ _ _ _ "No solution found.") as ?Hnv;
             rewrite Hx in Hnv; clear Hx
         | Hx : attr_threads _ = Raised _ |- _ =>
             pose proof (attr_threads_no_ValueError
                           _ "No solution found.") as ?Hnv;
             rewrite Hx in Hnv; clear Hx
         end.
  all: try (injection E as <- <-).
  all: repeat match goal with
         | Hv : Env.verbose e = true, Hl : Env.verbose e = true -> _ |- _ =>
             specialize (Hl Hv)
         end.
  all: repeat match goal with f : frame |- _ => destruct f end.
  all: simpl in *; simplify_eq.
  all: rewrite ?count_app; simpl.
  all: repeat split; try lia; try done.
  all: try (intros ? ?; lia).
  all: try (intros [= ->]; done).
  all: try (intros [= ->];
            first [ eapply attainable_SVP_dim_no_ValueError; eassumption
                  | eapply expected_successful_SVP_dim_no_ValueError;
                    eassumption
                  | eapply attr_threads_no_ValueError; eassumption ]).
  all: try match goal with
       | Hc : count is_tour _ = _ |- _ =>
           rewrite !count_app in Hc; simpl in Hc; try (intros ? ?); lia
       end.
Qed.

(** What the loop over [range(tours)] leaves behind: when it ends
    without an exception, the goal is reached or every iteration has
    run its tour. *)
Lemma tours_loop_run (fuel : nat) (blocksize : Z) (n : nat) :
  forall (s : frame) (r : res unit) (s' : frame),
    tours_loop e fuel n blocksize s = (r, s') ->
    r <> Raised (ValueError "No solution found.")
    /\ (Env.verbose e = true ->
        count is_pump (log s') = count is_pump (log s))
    /\ (r = Done tt ->
        goal_reached e (g6k s') = true
        \/ count is_tour (log s') = (count is_tour (log s) + n)%nat).
Proof.
  induction n as [|n IH]; intros s r s' E; simpl in E.
  - injection E as <- <-. split; [done|]. split; [done|].
    intros _. right. lia.
  - unfold bind in E.
    destruct (tour e fuel blocksize s) as [r1 s1] eqn:Ht.
    apply tour_run in Ht as ([_ Hcount] & Hbreak & Hnv & Hpump).
    destruct r1 as [[|]|x|].
    + apply IH in E as (Hnv' & Hpump' & Hdone).
      split; [done|]. split; [intros Hv; by rewrite (Hpump' Hv), (Hpump Hv)|].
      intros Hr. destruct (Hdone Hr) as [Hg | Hc]; [by left|].
      right. rewrite Hc, (Hcount _ eq_refl). lia.
    + injection E as <- <-. split; [done|]. split; [done|].
      intros _. left. by apply Hbreak.
    + injection E as <- <-. split; [|done].
      intros [= ->]. by apply Hnv.
    + by injection E as <- <-.
Qed.

(** The write of the solution ends the log, and leaves the world. *)
Lemma finish_run (s : frame) :
  finish e s
  = (Done tt,
     Frame _ (g6k s) (store s) (params s) (T_blocksizes s) (T0_BKZ s)
           (S (clock s))
           (log s ++ [Write (solution_filename (Env.n e)
                                (py_int (Env.alpha e * 1000)))
                            (B0 (g6k s))])).
Proof. reflexivity. Qed.

(** What the loop over the blocksizes leaves behind. *)
Lemma blocksizes_loop_run (fuel : nat) (todo : list Z) :
  forall (s : frame) (r : res unit) (s' : frame),
    blocksizes_loop e fuel todo s = (r, s') ->
    (Env.verbose e = true ->
     count is_pump (log s') = count is_pump (log s))
    /\ (r = Done tt ->
        goal_reached e (g6k s') = true
        /\ last (log s')
           = Some (Write (solution_filename (Env.n e)
                            (py_int (Env.alpha e * 1000)))
                         (B0 (g6k s'))))
    /\ (r = Raised (ValueError "No solution found.") ->
        count is_tour (log s')
        = (count is_tour (log s)
           + length todo * Z.to_nat (Env.tours e))%nat
        /\ (todo = [] -> s' = s)
        /\ (todo <> [] -> goal_reached e (g6k s') = false)).
Proof.
  induction todo as [|blocksize rest IH]; intros s r s' E; simpl in E.
  - injection E as <- <-. split; [done|]. split; [done|].
    intros _. split; [simpl; lia | done].
  - unfold bind, get in E.
    destruct (tours_loop e fuel _ blocksize s) as [r1 s1] eqn:Ht.
    apply tours_loop_run in Ht as (Hnv & Hpump & Hdone).
    destruct r1 as [[]|x|].
    + destruct (goal_reached e (g6k s1)) eqn:Hgoal.
      * rewrite finish_run in E. injection E as <- <-. simpl.
        split; [intros Hv; rewrite count_app; simpl; rewrite (Hpump Hv); lia|].
        split; [|done]. intros _. split; [done|]. by rewrite last_snoc.
      * apply IH in E as (Hpump' & Hret & Herr).
        split; [intros Hv; by rewrite (Hpump' Hv), (Hpump Hv)|]. split; [done|].
        intros Hr.
        destruct (Herr Hr) as (Hcount & Hsame & Hgoal').
        split; [|split; [done|]].
        -- destruct (Hdone eq_refl) as [Hg | Hc]; [congruence|].
           simpl. lia.
        -- intros _. destruct rest as [|b rest]; [|by apply Hgoal'].
           by rewrite Hsame.
    + injection E as <- <-. split; [done|]. split; [done|].
      intros [= ->]. by destruct Hnv.
    + injection E as <- <-. done.
Qed.
End Runs.

(** ** The kernel: how a call ends *)

Lemma py_eval_range (s : string) (v : pyseq) :
  py_eval s = Done v -> exists lo hi step, v = PyRange lo hi step.
Proof.
  unfold py_eval. intros E.
  repeat case_match; simplify_eq; eauto.
Qed.

Lemma build_blocksizes_nonempty (spec : option string) (b : Z) (v : pyseq) :
  build_blocksizes spec b = Done v -> py_list v <> [].
Proof.
  destruct spec as [spec|]; simpl.
  - destruct (py_eval _) as [r| |] eqn:Hr; simpl; [|done..].
    apply py_eval_range in Hr as (lo & hi & step & ->). done.
  - intros [= <-]. simpl. done.
Qed.

Section KernelExits.
Context `{External}.

(** What the prologue binds. *)
Lemma prologue_done (n : Z) (p : Params) (e : Env.t) (s : frame) :
  prologue n p = Done (e, s) ->
  Env.n e = n /\ Env.alpha e = lwe_alpha p
  /\ Env.verbose e = opt_verbose p /\ Env.tours e = bkz_tours p
  /\ log s = [] /\ Env.blocksizes e <> [].
Proof.
  unfold prologue. intros E.
  destruct (load_lwe_challenge n (lwe_alpha p)) as [ncols q].
  destruct (gsa_params _ _ _ _) as [[[b s_] m_est]|]; [|done].
  simpl in E.
  destruct (build_blocksizes _ _) as [v| |] eqn:Hb; [|done..].
  simpl in E. injection E as <- <-. simpl.
  repeat (split; [done|]). by eapply build_blocksizes_nonempty.
Qed.

End KernelExits.

(** C8, as stated, fails: there is a third way out.  On an instance for
    which the estimator returns no parameters the kernel raises
    [TypeError("No winning parameters.")]: it neither returns with an
    artifact nor raises the error of an exhausted schedule. *)
Lemma lwe_kernel_third_exit :
  @lwe_kernel (idle_engines None) 0 40 default_params
  = (Raised (TypeError "No winning parameters."), None).
Proof. reflexivity. Qed.

Section VerboseRuns.
Context `{External}.

(** C10: with [verbose] set no call of the kernel reaches the search
    engine.  The larger search ends at its status message, on the name
    [svp_Tmax], which is bound only inside [attainable_SVP_dim]: the
    log of a verbose call holds no [Pump], and the branch that would
    search raises [NameError] as soon as the loop on [llb] is left. *)
Theorem verbose_never_searches (fuel : nat) (n : Z) (p : Params) :
  opt_verbose p = true ->
  (forall r s', lwe_kernel fuel n p = (r, Some s') ->
                count is_pump (log s') = O)
  /\ (forall e s0, prologue n p = Done (e, s0) ->
      forall blocksize current_n_max w s,
        escalate e fuel blocksize current_n_max w s
        = (match shrink_llb (env_target_norm e) (Env.d e) fuel w
                   (Env.d e - blocksize) with
           | Done _ => Raised (NameError "svp_Tmax")
           | Raised x => Raised x
           | OutOfFuel => OutOfFuel
           end, s)).
Proof.
  intros Hv. split.
  - intros r s' Hk. unfold lwe_kernel in Hk.
    destruct (prologue n p) as [[e s0]| |] eqn:Hp; [|done..].
    destruct (blocksizes_loop e fuel (Env.blocksizes e) s0)
      as [r1 s1] eqn:Hloop.
    injection Hk as <- <-.
    apply prologue_done in Hp as (_ & _ & Hve & _ & Hlog & _).
    apply blocksizes_loop_run in Hloop as (Hpump & _).
    rewrite Hpump, Hlog; [done | congruence].
  - intros e s0 Hp blocksize current_n_max w s.
    apply escalate_verbose.
    apply prologue_done in Hp as (_ & _ & Hve & _). congruence.
Qed.
End VerboseRuns.

Lemma verbose_never_searches_witness :
  (forall r (s' : @frame (idle_engines (Some (60, 60, 99)))),
     @lwe_kernel (idle_engines (Some (60, 60, 99))) 5 40 default_params
     = (r, Some s') ->
     count is_pump (log s') = O)
  /\ (forall e (s0 : @frame (idle_engines (Some (60, 60, 99)))),
        @prologue (idle_engines (Some (60, 60, 99))) 40 default_params
        = Done (e, s0) ->
        forall blocksize current_n_max w s,
          @escalate (idle_engines (Some (60, 60, 99))) e 5 blocksize
                    current_n_max w s
          = (match @shrink_llb (idle_engines (Some (60, 60, 99)))
                     (env_target_norm e) (Env.d e) 5 w
                     (Env.d e - blocksize) with
             | Done _ => Raised (NameError "svp_Tmax")
             | Raised x => Raised x
             | OutOfFuel => OutOfFuel
             end, s)).
Proof.
  apply (@verbose_never_searches (idle_engines (Some (60, 60, 99))) 5 40
           default_params).
  reflexivity.
Defined.

(** ** A call that finishes, and a search that is reached *)

Section FirstTour.
Context `{External}.
Variable e : Env.t.

(** Without [verbose] the larger search calls the search engine once
    the loop on [llb] is left. *)
Lemma escalate_searches_when_quiet (fuel : nat)
    (blocksize current_n_max llb : Z) (w : World) (s : frame) :
  Env.verbose e = false ->
  shrink_llb (env_target_norm e) (Env.d e) fuel w (Env.d e - blocksize)
  = Done llb ->
  log (escalate e fuel blocksize current_n_max w s).2
  = log s ++ [Pump llb (Env.d e - llb)
                   (Env.d e - llb - (current_n_max + 1))].
Proof.
  intros Hv Hl.
  unfold escalate, bind, lift, when_verbose, raise, ret, engine, time,
    set_T0_BKZ, get.
  rewrite Hv, Hl. simpl.
  destruct (goal_reached _ _); simpl; by rewrite app_nil_r.
Qed.

(** A tour after which the goal is reached ends the loop over the
    tours. *)
Lemma tour_reaches_goal (fuel : nat) (blocksize : Z) (s : frame)
    (items : gmap Z R) :
  0 < blocksize ->
  store s !! T_blocksizes s = Some (Dict items) ->
  let w := (if blocksize <? Env.fpylll_crossover e
            then fpylll_bkz_tour blocksize
            else pump_n_jump_bkz_tour blocksize (env_target_norm e))
             (g6k s) in
  goal_reached e (lll w) = true ->
  exists s', tour e fuel blocksize s = (Done Break, s')
             /\ g6k s' = lll w /\ log s' = log s ++ [Tour blocksize].
Proof.
  intros Hpos Ht w Hg. subst w.
  unfold tour, bind, lift, when_verbose, raise, ret, engine, time,
    dict_set, get, check_block_size, bind.
  destruct (Z.leb_spec blocksize 0) as [|_]; [lia|].
  simpl.
  destruct (blocksize <? Env.fpylll_crossover e); simpl;
    rewrite Ht; simpl; destruct (Env.verbose e); simpl;
    rewrite Hg; eexists; (split; [done|]); simpl;
    by rewrite ?app_nil_r.
Qed.

(** When the first tour of a blocksize reaches the goal, the kernel
    goes on to write the solution. *)
Lemma blocksizes_loop_first_tour (fuel : nat) (blocksize : Z)
    (rest : list Z) (s s1 : frame) :
  (0 < Env.tours e) ->
  tour e fuel blocksize s = (Done Break, s1) ->
  goal_reached e (g6k s1) = true ->
  blocksizes_loop e fuel (blocksize :: rest) s = finish e s1.
Proof.
  intros Hk Ht Hg. simpl.
  destruct (Z.to_nat (Env.tours e)) as [|k] eqn:Hn; [lia|].
  simpl. unfold bind, get, ret. rewrite Ht. by rewrite Hg.
Qed.
End FirstTour.

Lemma py_int_of_Z (z : Z) : py_int (IZR z) = z.
Proof.
  assert (forall k : Z, Int_part (IZR k) = k) as Hint.
  { intros k. symmetry. apply Int_part_spec. lra. }
  unfold py_int. destruct (Rle_dec 0 (IZR z)); [apply Hint|].
  rewrite <- opp_IZR, Hint. lia.
Qed.

(** The toy run of the specification: dimension 40, noise rate 0.005, the
    default schedule, on engines whose basis already holds a vector of
    norm one.  The first tour, at blocksize 10, reaches the goal, and the
    kernel writes the solution under the name of the instance. *)
Lemma lwe_kernel_run_finishes :
  exists s' : @frame (idle_engines (Some (60, 60, 99))),
    @lwe_kernel (idle_engines (Some (60, 60, 99))) 0 40 default_params
    = (Done tt, Some s')
    /\ log s' = [Tour 10;
                 Write "lwechallenge/040-005-solution.txt" "[]"].
Proof.
  unfold lwe_kernel.
  destruct (@prologue (idle_engines (Some (60, 60, 99))) 40 default_params)
    as [[e s0]| |] eqn:Hp; [|done..].
  injection Hp as <- <-.
  match goal with
  | |- context [blocksizes_loop ?e _ (Env.blocksizes ?e) ?s] =>
      set (e0 := e); set (s0 := s)
  end.
  assert (Env.blocksizes e0 = 10 :: tail (Env.blocksizes e0)) as ->
    by reflexivity.
  assert (goal_reached e0 (g6k s0) = true) as Hgoal.
  { unfold goal_reached. destruct (Rle_dec _ _) as [|Hn]; [done|].
    exfalso. apply Hn.
    change (get_r (g6k s0) 0 0) with 1%R.
    unfold env_target_norm, target_norm. simpl. lra. }
  destruct (tour_reaches_goal e0 0 10 s0 ∅) as (s1 & Ht & Hw & Hlog);
    [lia | done | exact Hgoal |].
  rewrite (blocksizes_loop_first_tour e0 0 10 _ s0 s1);
    [| done | done | by rewrite Hw].
  rewrite finish_run. eexists. split; [done|]. simpl.
  rewrite Hlog. simpl.
  replace (5 / 1000 * 1000)%R with (IZR 5) by lra.
  by rewrite py_int_of_Z.
Qed.


(** * Further properties of the kernel *)

(** ** The expected dimension of success: its dependence on the target *)

(** X2: a larger target never lowers the expected dimension of success:
    over three dimensions or more and for a positive margin, the scan
    returns on both targets, and the dimension for the larger target is
    at least the one for the smaller. *)
Theorem expected_successful_SVP_dim_mono `{External}
    (target target' goal_margin : R) (d : Z) (w : World)
    (rr : option (list R)) :
  (0 < goal_margin)%R -> 3 <= d -> (target <= target')%R ->
  exists k k' : Z,
    expected_successful_SVP_dim target goal_margin d w rr = Done k
    /\ expected_successful_SVP_dim target' goal_margin d w rr = Done k'
    /\ k <= k'.
Proof.
  intros Hgm Hd Hle.
  assert (goal_margin <> 0%R) as Hnz by lra.
  assert (forall j, 2 <= j < d ->
            success_condition target' goal_margin d
              (default (map (fun i => get_r w i i) (py_range 0 d 1)) rr) j ->
            success_condition target goal_margin d
              (default (map (fun i => get_r w i i) (py_range 0 d 1)) rr) j)
    as Hweaker.
  { intros j Hj. unfold success_condition. intros Hc.
    eapply Rle_lt_trans; [|exact Hc].
    assert (0 < IZR j)%R by (apply IZR_lt; lia).
    assert (0 < IZR d)%R by (apply IZR_lt; lia).
    assert (0 < / goal_margin)%R by (by apply Rinv_0_lt_compat).
    assert (0 < / IZR d)%R by (by apply Rinv_0_lt_compat).
    unfold Rdiv. repeat apply Rmult_le_compat_r; lra. }
  destruct (expected_successful_SVP_dim_cases target goal_margin d w rr
              Hnz Hd) as [(k & Hk & Hc & Hmin & Heq) | [Hnone Heq]];
    destruct (expected_successful_SVP_dim_cases target' goal_margin d w rr
                Hnz Hd) as [(k' & Hk' & Hc' & Hmin' & Heq') | [Hnone' Heq']].
  - exists k, k'. split; [done|]. split; [done|].
    destruct (Z_le_gt_dec k k') as [|Hgt]; [done|].
    exfalso. apply (Hmin k'); [lia|]. by apply Hweaker.
  - exists k, (d - 1). split; [done|]. split; [done|]. lia.
  - exfalso. apply (Hnone k'); [lia|]. by apply Hweaker.
  - exists (d - 1), (d - 1). split; [done|]. split; [done|]. lia.
Qed.

Lemma expected_successful_SVP_dim_mono_witness :
  exists k k' : Z,
    @expected_successful_SVP_dim (idle_engines None) 5 1 3 []
       (Some [1; 1; 1]%R) = Done k
    /\ @expected_successful_SVP_dim (idle_engines None) 1000 1 3 []
         (Some [1; 1; 1]%R) = Done k'
    /\ k <= k'.
Proof.
  apply (@expected_successful_SVP_dim_mono (idle_engines None) 5 1000 1 3
           [] (Some [1; 1; 1]%R)); first [lra | lia].
Defined.

(** ** The loop on [llb] *)

(** X3: the loop on [llb] returns [llb] exactly when [llb] is the first
    value, going down from the start, at which the block is not too
    short, and it lies within the fuel below the start; so it can only
    fail to return when the block is too short at every value it is
    given the fuel to try. *)
Theorem shrink_llb_first_long_block `{External} (target : R) (d : Z)
    (w : World) (fuel : nat) :
  forall start llb : Z,
    shrink_llb target d fuel w start = Done llb
    <-> (start - Z.of_nat fuel <= llb <= start
         /\ ~ block_too_short target d w llb
         /\ forall j, llb < j <= start -> block_too_short target d w j).
Proof.
  induction fuel as [|fuel IH]; intros start llb; simpl;
    fold (block_too_short target d w start);
    destruct (Rlt_dec _ _) as [Hc | Hc].
  - split; [done|]. intros (Hb & Hn & _).
    by replace llb with start in Hn by lia.
  - split.
    + intros [= <-]. split; [lia|]. split; [done|]. intros j Hj. lia.
    + intros (Hb & _). f_equal. lia.
  - rewrite IH. split.
    + intros (Hb & Hn & Hall). split; [lia|]. split; [done|].
      intros j Hj. destruct (decide (j = start)) as [->|]; [done|].
      apply Hall. lia.
    + intros (Hb & Hn & Hall).
      assert (llb <> start) by (by intros ->).
      split; [lia|]. split; [done|]. intros j Hj. apply Hall. lia.
  - split.
    + intros [= <-]. split; [lia|]. split; [done|]. intros j Hj. lia.
    + intros (Hb & Hn & Hall). f_equal.
      destruct (decide (llb = start)) as [|Hne]; [done|].
      exfalso. apply Hc, Hall. lia.
Qed.

Lemma shrink_llb_first_long_block_witness :
  @shrink_llb (idle_engines None) 0 3 0 [1; 1; 1]%R 1 = Done 1.
Proof.
  apply (proj2 (@shrink_llb_first_long_block (idle_engines None) 0 3
                  [1; 1; 1]%R 0 1 1)).
  split; [simpl; lia|]. split; [|intros j Hj; lia].
  unfold block_too_short.
  change (@gaussian_heuristic (idle_engines None))
    with gaussian_heuristic_closed_form.
  unfold gaussian_heuristic_closed_form. intros Hlt.
  match type of Hlt with
  | (exp ?x < _)%R => pose proof (exp_pos x) as Hpos
  end.
  lra.
Defined.

(** ** The lookahead: what it returns *)

Lemma extrapolated_chain (T : R) (blocksize previous rblock : Z) :
  (extrapolated T blocksize previous
   * pow2 (expo * IZR (rblock - previous)))%R
  = extrapolated T blocksize rblock.
Proof.
  unfold extrapolated, pow2. rewrite Rmult_assoc, <- Rpower_plus.
  do 2 f_equal. rewrite !minus_IZR. ring.
Qed.

Lemma extrapolated_self (T : R) (blocksize : Z) :
  extrapolated T blocksize blocksize = T.
Proof.
  unfold extrapolated. rewrite Z.sub_diag, Rmult_0_r, pow2_0. ring.
Qed.

Lemma lookahead_extrapolates `{External} (window : list Z) :
  forall (previous : Z) (rr : list R) (extra : R) (t : loc)
         (frr : list (list R)) (ets : list R) (s : frame)
         (items : gmap Z R) (T : R) (blocksize : Z),
    Forall (fun rblock => 0 < rblock) window ->
    store s !! t = Some (Dict items) ->
    items !! previous = Some (extrapolated T blocksize previous) ->
    (lookahead window previous rr extra t frr ets s).1
    = Done (frr ++ simulated rr window,
            ets ++ running_sums extra
                     (map (extrapolated T blocksize) window)).
Proof.
  induction window as [|rblock rest IH]; intros * Hpos Ht Hprev.
  - simpl. by rewrite !app_nil_r.
  - apply Forall_cons in Hpos as [Hrblock Hrest].
    rewrite (lookahead_cons rblock rest previous rr extra t frr ets s
               items _ Hrblock Ht Hprev).
    rewrite extrapolated_chain.
    pose proof (lookup_lt_Some _ _ _ Ht) as Hlt.
    erewrite IH.
    + simpl. by rewrite <- !app_assoc.
    + done.
    + simpl. apply list_lookup_insert_eq. rewrite length_app. simpl. lia.
    + apply lookup_insert_eq.
Qed.

(** The lookahead stops at the first blocksize of its window that the
    constructor refuses. *)
Lemma lookahead_refuses `{External} (window : list Z) :
  forall (previous : Z) (rr : list R) (extra : R) (t : loc)
         (frr : list (list R)) (ets : list R) (s : frame)
         (items : gmap Z R) (T : R) (blocksize : Z),
    Exists (fun rblock => rblock <= 0) window ->
    store s !! t = Some (Dict items) ->
    items !! previous = Some (extrapolated T blocksize previous) ->
    (lookahead window previous rr extra t frr ets s).1
    = Raised (ValueError "block size must be > 0").
Proof.
  induction window as [|rblock rest IH]; intros * Hneg Ht Hprev.
  - by apply Exists_nil in Hneg.
  - destruct (Z.le_gt_cases rblock 0) as [Hle | Hgt].
    + by rewrite lookahead_refused.
    + apply Exists_cons in Hneg as [Hneg | Hneg]; [lia|].
      rewrite (lookahead_cons rblock rest previous rr extra t frr ets s
                 items _ Hgt Ht Hprev).
      rewrite extrapolated_chain.
      pose proof (lookup_lt_Some _ _ _ Ht) as Hlt.
      eapply IH.
      * done.
      * simpl. apply list_lookup_insert_eq. rewrite length_app. simpl. lia.
      * apply lookup_insert_eq.
Qed.

(** X4: from a table that holds the measured duration [T] of the tour
    just run.  Over a window of positive blocksizes, which the
    constructor of line 242 accepts, the lookahead returns: the profiles
    are those the simulator predicts one after the other, and the extra
    time up to each blocksize of the window is the sum of the durations
    [T * 2^(C * (rblock - blocksize))], each of which depends on the
    distance to the blocksize just run and not on the steps in between.
    Over a window that holds a blocksize that is not positive it raises
    the [ValueError] of the constructor. *)
Theorem lookahead_returns_extrapolations `{External} (window : list Z)
    (blocksize : Z) (rr : list R) (s : frame) (items : gmap Z R) (T : R) :
  store s !! T_blocksizes s = Some (Dict items) ->
  items !! blocksize = Some T ->
  (lookahead window blocksize rr 0 (T_blocksizes s) [] [] s).1
  = if decide (Forall (fun rblock => 0 < rblock) window)
    then Done (simulated rr window,
               running_sums 0 (map (extrapolated T blocksize) window))
    else Raised (ValueError "block size must be > 0").
Proof.
  intros Ht Hb.
  destruct (decide (Forall (fun rblock => 0 < rblock) window))
    as [Hpos | Hneg].
  - apply (lookahead_extrapolates window blocksize rr 0%R (T_blocksizes s)
             [] [] s items T blocksize Hpos Ht).
    by rewrite extrapolated_self.
  - apply (lookahead_refuses window blocksize rr 0%R (T_blocksizes s)
             [] [] s items T blocksize); [|done|by rewrite extrapolated_self].
    apply not_Forall_Exists in Hneg; [|intros x; apply _].
    eapply Exists_impl; [exact Hneg|]. simpl. intros x Hx. lia.
Qed.

Lemma lookahead_returns_extrapolations_witness :
  (@lookahead (idle_engines None) [11; 12] 10 [1; 1; 1]%R 0 2%nat [] []
     (after_first_tour (fun rr _ _ => rr))).1
  = if decide (Forall (fun rblock => 0 < rblock) [11; 12])
    then Done (@simulated (idle_engines None) [1; 1; 1]%R [11; 12],
               running_sums 0 (map (extrapolated 2 10) [11; 12]))
    else Raised (ValueError "block size must be > 0").
Proof.
  apply (@lookahead_returns_extrapolations (idle_engines None) [11; 12] 10
           [1; 1; 1]%R (after_first_tour (fun rr _ _ => rr))
           {[10 := 2%R]} 2%R).
  - reflexivity.
  - apply lookup_singleton_eq.
Defined.

(** ** The decision: steps that do not improve *)

(** X5: a step whose simulated dimension is not below the current one
    is passed over before the thread count is read: when no step
    improves, the loop returns [more_BKZ] as it was given, whatever
    [params] is bound to. *)
Theorem decide_more_BKZ_no_improvement `{External}
    (target goal_margin : R) (d current : Z) (steps : list (list R * R))
    (more_BKZ : bool) (s : frame) :
  Forall (fun step : list R * R =>
            exists k, expected_successful_SVP_dim target goal_margin d (g6k s)
                        (Some step.1) = Done k
                      /\ current <= k) steps ->
  decide_more_BKZ target goal_margin d current steps more_BKZ s
  = (Done more_BKZ, s).
Proof.
  induction 1 as [|[rr extra] rest (k & Hk & Hle) _ IH]; [done|].
  rewrite decide_more_BKZ_cons. unfold bind, get, lift. simpl in *.
  rewrite Hk. simpl.
  destruct (0 <=? k - current) eqn:Hdec; [done|].
  apply Z.leb_gt in Hdec. lia.
Qed.

Lemma decide_more_BKZ_no_improvement_witness :
  @decide_more_BKZ (idle_engines None) 5 1 3 2
     [([1; 1; 1]%R, 0%R)] false
     (@Frame (idle_engines None) [] [BKZParam 11 1] 0%nat 0%nat 0%R 0%nat [])
  = (Done false,
     @Frame (idle_engines None) [] [BKZParam 11 1] 0%nat 0%nat 0%R 0%nat []).
Proof.
  apply (@decide_more_BKZ_no_improvement (idle_engines None) 5 1 3 2).
  constructor; [|constructor]. exists 2. split; [|lia]. simpl.
  destruct (@expected_successful_SVP_dim_cases (idle_engines None)
              5 1 3 [] (Some [1; 1; 1]%R))
    as [(k & Hk & Hc & _) | [_ Heq]]; [lra | lia | | done].
  exfalso. replace k with 2 in Hc by lia.
  revert Hc. apply idle_condition_fails. lra.
Defined.

(** ** The log of a run *)

Section Log.
Context `{External}.
Variable e : Env.t.

Local Arguments lookahead : simpl never.
Local Arguments decide_more_BKZ : simpl never.
Local Arguments look_ahead_round : simpl never.
Local Arguments escalate : simpl never.
Local Arguments attainable_SVP_dim : simpl never.
Local Arguments expected_successful_SVP_dim : simpl never.
Local Arguments shrink_llb : simpl never.
Local Arguments goal_reached : simpl never.
Local Arguments py_index : simpl never.
Local Arguments tour : simpl never.

(** The larger search adds at most one call of the search engine to the
    log and nothing else, and leaves the store and its names alone. *)
Lemma escalate_log (fuel : nat) (blocksize current_n_max : Z) (w : World)
    (s : frame) (r : res ctl) (s' : frame) :
  escalate e fuel blocksize current_n_max w s = (r, s') ->
  (log s' = log s \/ exists llb dim f, log s' = log s ++ [Pump llb dim f])
  /\ store s' = store s /\ params s' = params s
  /\ T_blocksizes s' = T_blocksizes s.
Proof.
  intros E.
  unfold escalate, bind, lift, when_verbose, raise, ret, engine, time,
    set_T0_BKZ, get in E.
  simpl in E.
  repeat run_step E; injection E as <- <-; simpl;
    rewrite ?app_nil_r; eauto 10.
Qed.

(** One iteration adds to the log its tour and then at most one call of
    the search engine; it adds nothing when the constructor refuses the
    blocksize. *)
Lemma tour_log (fuel : nat) (blocksize : Z) (s : frame) (r : res ctl)
    (s' : frame) :
  tour e fuel blocksize s = (r, s') ->
  log s' = log s
  \/ log s' = log s ++ [Tour blocksize]
  \/ exists llb dim f, log s' = log s ++ [Tour blocksize; Pump llb dim f].
Proof.
  intros E.
  unfold tour, bind, lift, when_verbose, raise, ret, engine, time,
    dict_set, params_threads, get, check_block_size, bind in E.
  simpl in E.
  repeat run_step E.
  all: repeat match goal with
         | Hl : look_ahead_round _ _ _ _ _ = _ |- _ =>
             apply look_ahead_round_quiet in Hl as (_ & ? & _)
         end.
  all: try (apply escalate_log in E as (Hlog & _)).
  all: try (injection E as <- <-).
  all: repeat match goal with f : frame |- _ => destruct f end.
  all: simpl in *; simplify_eq.
  all: rewrite ?app_nil_r in *.
  all: try (by left).
  all: try (by right; left).
  all: destruct Hlog as [-> | (llb & dim & f & ->)];
    [by right; left
    | right; right; exists llb, dim, f; by rewrite <- app_assoc].
Qed.
End Log.

Lemma tour_blocks_app (l1 l2 : list event) :
  tour_blocks l1 -> tour_blocks l2 -> tour_blocks (l1 ++ l2).
Proof.
  intros H1 H2. induction H2 as [|bs l _ IH|bs llb dim f l _ IH].
  - by rewrite app_nil_r.
  - rewrite app_assoc. by constructor.
  - rewrite app_assoc. by constructor.
Qed.

Lemma tour_blocks_counts (l : list event) :
  tour_blocks l ->
  (count is_pump l <= count is_tour l)%nat /\ count is_write l = O.
Proof.
  induction 1 as [|bs l _ [IHp IHw]|bs llb dim f l _ [IHp IHw]];
    rewrite ?count_app; simpl; lia.
Qed.

Section LoopLog.
Context `{External}.
Variable e : Env.t.

Local Arguments tour : simpl never.

(** The loop over [range(tours)] adds at most one block per
    iteration. *)
Lemma tours_loop_log (fuel : nat) (blocksize : Z) (n : nat) :
  forall (s : frame) (r : res unit) (s' : frame),
    tours_loop e fuel n blocksize s = (r, s') ->
    exists l, log s' = log s ++ l /\ tour_blocks l
              /\ (count is_tour l <= n)%nat.
Proof.
  induction n as [|n IH]; intros s r s' E; simpl in E.
  - injection E as <- <-. exists []. rewrite app_nil_r.
    split; [done|]. split; [constructor | simpl; lia].
  - unfold bind in E.
    destruct (tour e fuel blocksize s) as [r1 s1] eqn:Ht.
    assert (exists l1, log s1 = log s ++ l1 /\ tour_blocks l1
                       /\ (count is_tour l1 <= 1)%nat)
      as (l1 & Hl1 & Hb1 & Hc1).
    { apply tour_log in Ht as [Hl | [Hl | (llb & dim & f & Hl)]].
      - exists []. rewrite app_nil_r. split; [done|].
        split; [constructor | simpl; lia].
      - exists [Tour blocksize]. split; [done|].
        split; [apply (blocks_tour _ []); constructor | done].
      - exists [Tour blocksize; Pump llb dim f]. split; [done|].
        split; [apply (blocks_search _ _ _ _ []); constructor | done]. }
    destruct r1 as [[|]|x|].
    + apply IH in E as (l2 & Hl2 & Hb2 & Hc2).
      exists (l1 ++ l2). rewrite Hl2, Hl1, app_assoc. split; [done|].
      split; [by apply tour_blocks_app|]. rewrite count_app. lia.
    + injection E as <- <-. exists l1. split; [done|]. split; [done|lia].
    + injection E as <- <-. exists l1. split; [done|]. split; [done|lia].
    + injection E as <- <-. exists l1. split; [done|]. split; [done|lia].
Qed.

(** The loop over the blocksizes adds blocks of tours, within the budget
    of the schedule, and ends the log with the write of the solution
    exactly when it returns. *)
Lemma blocksizes_loop_log (fuel : nat) (todo : list Z) :
  forall (s : frame) (r : res unit) (s' : frame),
    blocksizes_loop e fuel todo s = (r, s') ->
    exists l,
      tour_blocks l
      /\ (count is_tour l <= length todo * Z.to_nat (Env.tours e))%nat
      /\ ((r = Done tt
           /\ exists name content,
                log s' = log s ++ l ++ [Write name content])
          \/ (r <> Done tt /\ log s' = log s ++ l)).
Proof.
  induction todo as [|blocksize rest IH]; intros s r s' E; simpl in E.
  - injection E as <- <-. exists []. split; [constructor|].
    split; [simpl; lia|]. right. by rewrite app_nil_r.
  - unfold bind, get in E.
    destruct (tours_loop e fuel _ blocksize s) as [r1 s1] eqn:Ht.
    apply tours_loop_log in Ht as (l1 & Hl1 & Hb1 & Hc1).
    destruct r1 as [[]|x|].
    + destruct (goal_reached e (g6k s1)) eqn:Hgoal.
      * rewrite finish_run in E. injection E as <- <-. simpl.
        exists l1. split; [done|]. split; [simpl; lia|]. left.
        split; [done|]. eexists _, _. by rewrite Hl1, app_assoc.
      * apply IH in E as (l2 & Hb2 & Hc2 & Hend).
        exists (l1 ++ l2). split; [by apply tour_blocks_app|].
        split; [rewrite count_app; simpl; lia|].
        destruct Hend as [(-> & name & content & ->) | (Hr & ->)].
        -- left. split; [done|]. exists name, content.
           by rewrite Hl1, <- !app_assoc.
        -- right. split; [done|]. by rewrite Hl1, app_assoc.
    + injection E as <- <-. exists l1. split; [done|].
      split; [simpl; lia|]. by right.
    + injection E as <- <-. exists l1. split; [done|].
      split; [simpl; lia|]. by right.
Qed.

End LoopLog.

(** X7: the log of a call that entered the loop.  It is a sequence of
    tours, each followed by at most one call of the search engine; the
    tours number at most the length of the schedule times [bkz/tours],
    however the call ends; and the log ends with one write of the
    solution exactly when the call returns, so that a call that raises
    has written nothing. *)
Theorem lwe_kernel_log `{External} (fuel : nat) (n : Z) (p : Params)
    (e : Env.t) (s0 : frame) (r : res unit) (s' : frame) :
  prologue n p = Done (e, s0) ->
  lwe_kernel fuel n p = (r, Some s') ->
  exists l,
    tour_blocks l
    /\ (count is_pump l <= count is_tour l)%nat
    /\ (count is_tour l
        <= length (Env.blocksizes e) * Z.to_nat (bkz_tours p))%nat
    /\ ((r = Done tt /\ exists name content, log s' = l ++ [Write name content])
        \/ (r <> Done tt /\ log s' = l)).
Proof.
  intros Hp Hk. unfold lwe_kernel in Hk. rewrite Hp in Hk.
  destruct (blocksizes_loop e fuel (Env.blocksizes e) s0)
    as [r1 s1] eqn:Hloop.
  injection Hk as <- <-.
  apply prologue_done in Hp as (_ & _ & _ & Ht & Hlog & _).
  apply blocksizes_loop_log in Hloop as (l & Hb & Hc & Hend).
  exists l. split; [done|]. split; [by apply tour_blocks_counts|].
  rewrite <- Ht. split; [done|]. by rewrite Hlog in Hend.
Qed.

(** ** The toy run, frame by frame *)

(** The frame a tour that reaches the goal ends in. *)
Lemma tour_reaches_goal_frame `{External} (e : Env.t) (fuel : nat)
    (blocksize : Z) (s : frame) (items : gmap Z R) :
  0 < blocksize ->
  store s !! T_blocksizes s = Some (Dict items) ->
  let w := (if blocksize <? Env.fpylll_crossover e
            then fpylll_bkz_tour blocksize
            else pump_n_jump_bkz_tour blocksize (env_target_norm e))
             (g6k s) in
  goal_reached e (lll w) = true ->
  tour e fuel blocksize s
  = (Done Break,
     Frame _ (lll w)
       (<[T_blocksizes s :=
            Dict (<[blocksize := (time_time (S (S (clock s)))
                                  - time_time (clock s))%R]> items)]>
          (store s))
       (params s) (T_blocksizes s) (T0_BKZ s)
       (if Env.verbose e then S (S (S (S (clock s))))
        else S (S (S (clock s))))
       (log s ++ [Tour blocksize])).
Proof.
  intros Hpos Ht w Hg. subst w.
  unfold tour, bind, lift, when_verbose, raise, ret, engine, time,
    dict_set, get, check_block_size, bind.
  destruct (Z.leb_spec blocksize 0) as [|_]; [lia|].
  simpl.
  destruct (blocksize <? Env.fpylll_crossover e); simpl;
    rewrite Ht; simpl; destruct (Env.verbose e); simpl;
    rewrite Hg; by rewrite ?app_nil_r.
Qed.

Lemma toy_prologue :
  @prologue toy_engines 40 default_params = Done (toy_env, toy_start).
Proof. reflexivity. Qed.

Lemma toy_goal_reached : @goal_reached toy_engines toy_env (repeat 1%R 99) = true.
Proof.
  unfold goal_reached. destruct (Rle_dec _ _) as [|Hn]; [done|].
  exfalso. apply Hn.
  change (@get_r toy_engines (repeat 1%R 99) 0 0) with 1%R.
  unfold env_target_norm, target_norm. simpl. lra.
Qed.

Lemma toy_run :
  @lwe_kernel toy_engines 0 40 default_params = (Done tt, Some toy_finished).
Proof.
  unfold lwe_kernel. rewrite toy_prologue.
  assert (Env.blocksizes toy_env = 10 :: tail (Env.blocksizes toy_env)) as ->
    by reflexivity.
  pose proof (@tour_reaches_goal_frame toy_engines toy_env 0 10 toy_start ∅
                eq_refl eq_refl toy_goal_reached) as Ht.
  rewrite (@blocksizes_loop_first_tour toy_engines toy_env 0 10 _ toy_start
             _ ltac:(done) Ht toy_goal_reached).
  rewrite finish_run. simpl.
  replace (5 / 1000 * 1000)%R with (IZR 5) by lra.
  rewrite py_int_of_Z. reflexivity.
Qed.

Lemma lwe_kernel_log_witness :
  exists l,
    tour_blocks l
    /\ (count is_pump l <= count is_tour l)%nat
    /\ (count is_tour l
        <= length (Env.blocksizes toy_env)
           * Z.to_nat (bkz_tours default_params))%nat
    /\ ((@Done unit tt = Done tt
         /\ exists name content, log toy_finished = l ++ [Write name content])
        \/ (@Done unit tt <> Done tt /\ log toy_finished = l)).
Proof.
  apply (@lwe_kernel_log toy_engines 0 40 default_params toy_env toy_start
           (Done tt) toy_finished).
  - exact toy_prologue.
  - exact toy_run.
Defined.

(** ** The exceptions of the loop *)

Section Exceptions.
Context `{External}.

Lemma scan_n_expected_exn (target goal_margin : R) (d : Z) (rr : list R)
    (cands : list Z) :
  forall (last : option Z) (x : exn),
    scan_n_expected target goal_margin d rr cands last = Raised x ->
    loop_exn x = true.
Proof.
  induction cands as [|k cands IH]; intros last x; simpl.
  - destruct last; [done|]. by intros [= <-].
  - unfold fdiv. destruct (Req_dec_T goal_margin 0); [by intros [= <-]|].
    simpl. destruct (Rgt_dec _ _); [done | apply IH].
Qed.

Lemma attr_threads_exn (o : obj) (x : exn) :
  attr_threads o = Raised x -> loop_exn x = true.
Proof.
  destruct o; simpl; [done| |by intros [= <-]].
  destruct (BKZParam_threads _ _); [done | by intros [= <-]].
Qed.

Lemma attainable_SVP_dim_exn (f : R) (t : Z) (T : R) (x : exn) :
  attainable_SVP_dim f t T = Raised x -> loop_exn x = true.
Proof.
  unfold attainable_SVP_dim, py_log.
  destruct (Rlt_dec _ _); [done | by intros [= <-]].
Qed.

Lemma py_index_elem (x : Z) (l : list Z) :
  x ∈ l -> exists i, py_index x l = Done i.
Proof.
  induction l as [|y l IH]; [by intros ?%elem_of_nil|].
  intros Hin. simpl. destruct (Z.eq_dec y x) as [|Hne]; [by eexists|].
  apply elem_of_cons in Hin as [->|Hin]; [done|].
  destruct (IH Hin) as [i ->]. by eexists.
Qed.

(** The decision loop lets out only exceptions of the forecast and of the
    read of the thread count. *)
Lemma decide_more_BKZ_exn (target goal_margin : R) (d current : Z)
    (steps : list (list R * R)) :
  forall more_BKZ s r s',
    is_Some (store s !! params s) ->
    decide_more_BKZ target goal_margin d current steps more_BKZ s = (r, s')
    -> s' = s
       /\ r <> OutOfFuel
       /\ forall x, r = Raised x -> loop_exn x = true.
Proof.
  induction steps as [|[rr extra] rest IH]; intros * [o Ho] E.
  - by injection E as <- <-.
  - rewrite decide_more_BKZ_cons in E.
    unfold bind, get, lift, params_threads, fdiv in E. simpl in E.
    destruct (expected_successful_SVP_dim _ _ _ _ _)
      as [k|x0|] eqn:Hk; simpl in E.
    + destruct (0 <=? k - current); [by eapply IH|].
      rewrite Ho in E.
      destruct (attr_threads o) as [t|x0|] eqn:Ha; simpl in E.
      * destruct (Req_dec_T (IZR t) 0); simpl in E.
        { injection E as <- <-. split; [done|]. split; [done|].
          by intros x [= <-]. }
        destruct (Rlt_dec _ _); by eapply IH.
      * injection E as <- <-. split; [done|]. split; [done|].
        intros x [= <-]. by eapply attr_threads_exn.
      * exfalso. destruct o; simpl in Ha; try done.
        by destruct (BKZParam_threads _ _).
    + injection E as <- <-. split; [done|]. split; [done|].
      intros x [= <-]. by eapply scan_n_expected_exn.
    + exfalso. unfold expected_successful_SVP_dim in Hk.
      revert Hk. generalize (@None Z).
      induction (py_range 2 d 1) as [|c cs IHc]; intros last; simpl.
      * by destruct last.
      * unfold fdiv. destruct (Req_dec_T goal_margin 0); [done|]. simpl.
        destruct (Rgt_dec _ _); [done | apply IHc].
Qed.

(** On a store in order whose table holds the duration of the previous
    blocksize, the lookahead leaves the store in order, and it returns
    unless the constructor refuses a blocksize. *)
Lemma lookahead_in_order (window : list Z) :
  forall previous rr extra frr ets (s : frame) items v r s',
    store s !! T_blocksizes s = Some (Dict items) ->
    items !! previous = Some v ->
    is_Some (store s !! params s) ->
    lookahead window previous rr extra (T_blocksizes s) frr ets s = (r, s')
    -> store_in_order s' /\ r <> OutOfFuel
       /\ forall x, r = Raised x -> loop_exn x = true.
Proof.
  induction window as [|rblock rest IH]; intros * Ht Hv Hp E.
  - injection E as <- <-. split; [|done]. split; [by eexists | done].
  - destruct (Z.le_gt_cases rblock 0) as [Hle | Hgt].
    + rewrite lookahead_refused in E by done. injection E as <- <-.
      split; [split; [by eexists | done]|]. split; [done|].
      by intros x [= <-].
    + rewrite (lookahead_cons rblock rest previous rr extra (T_blocksizes s)
                 frr ets s items v Hgt Ht Hv) in E.
      pose proof (lookup_lt_Some _ _ _ Ht) as Hlt.
      match type of E with
      | lookahead rest rblock ?rr' ?ex ?t ?f ?es ?s1 = _ =>
          apply (IH rblock rr' ex f es s1
                   (<[rblock := (v * pow2 (expo * IZR (rblock - previous)))%R]>
                      items)
                   (v * pow2 (expo * IZR (rblock - previous)))%R r s');
            [| | | exact E]
      end.
      * simpl. apply list_lookup_insert_eq. rewrite length_app. simpl. lia.
      * apply lookup_insert_eq.
      * simpl. apply lookup_lt_is_Some.
        rewrite length_insert, length_app. simpl. lia.
Qed.
End Exceptions.

Section TourExceptions.
Context `{External}.
Variable e : Env.t.

Local Arguments lookahead : simpl never.
Local Arguments decide_more_BKZ : simpl never.
Local Arguments look_ahead_round : simpl never.
Local Arguments escalate : simpl never.
Local Arguments attainable_SVP_dim : simpl never.
Local Arguments expected_successful_SVP_dim : simpl never.
Local Arguments shrink_llb : simpl never.
Local Arguments goal_reached : simpl never.
Local Arguments py_index : simpl never.
Local Arguments tour : simpl never.

Lemma timed_store_in_order (st : list obj) (t p : loc) (items : gmap Z R)
    (blocksize : Z) (v : R) :
  st !! t = Some (Dict items) ->
  is_Some (st !! p) ->
  <[t := Dict (<[blocksize := v]> items)]> st !! t
  = Some (Dict (<[blocksize := v]> items))
  /\ is_Some (<[t := Dict (<[blocksize := v]> items)]> st !! p).
Proof.
  intros Ht Hp. split.
  - apply list_lookup_insert_eq. by eapply lookup_lt_Some.
  - apply lookup_lt_is_Some. rewrite length_insert.
    by apply lookup_lt_is_Some.
Qed.

Lemma look_ahead_round_in_order (blocksize current : Z) (w : World)
    (s : frame) (r : res bool) (s' : frame) (items : gmap Z R) (v : R) :
  store s !! T_blocksizes s = Some (Dict items) ->
  items !! blocksize = Some v ->
  is_Some (store s !! params s) ->
  blocksize ∈ Env.blocksizes e ->
  look_ahead_round e blocksize current w s = (r, s') ->
  store_in_order s' /\ r <> OutOfFuel
  /\ forall x, r = Raised x -> loop_exn x = true.
Proof.
  intros Ht Hv Hp Hin E.
  destruct (py_index_elem _ _ Hin) as [ind Hind].
  rewrite (look_ahead_round_eq e blocksize current w s ind Hind) in E.
  destruct (lookahead _ _ _ _ _ _ _ s) as [r1 s1] eqn:Hl.
  apply (lookahead_in_order _ _ _ _ _ _ _ items v) in Hl
    as (Hord & Hnf1 & Hexn1); [|done..].
  destruct r1 as [out|x|]; [| |done].
  - apply decide_more_BKZ_exn in E as (-> & Hnf & Hexn); [done|].
    by destruct Hord.
  - injection E as <- <-. split; [done|]. split; [done|].
    intros x0 [= <-]. by apply Hexn1.
Qed.

Lemma escalate_exn (fuel : nat) (blocksize current_n_max : Z) (w : World)
    (s : frame) (x : exn) (s' : frame) :
  escalate e fuel blocksize current_n_max w s = (Raised x, s') ->
  x = NameError "svp_Tmax".
Proof.
  intros E.
  unfold escalate, bind, lift, when_verbose, raise, ret, engine, time,
    set_T0_BKZ, get in E.
  destruct (shrink_llb _ _ _ _ _) as [llb|x0|] eqn:Hs;
    [|by apply shrink_llb_no_raise in Hs|done].
  simpl in E. repeat run_step E; by simplify_eq.
Qed.

Lemma expected_successful_SVP_dim_exn (target goal_margin : R) (d : Z)
    (w : World) (rr : option (list R)) (x : exn) :
  expected_successful_SVP_dim target goal_margin d w rr = Raised x ->
  loop_exn x = true.
Proof. apply scan_n_expected_exn. Qed.

(** An iteration on a store in order, at a blocksize of the schedule,
    leaves the store in order and lets out only exceptions of the
    loop. *)
Lemma tour_in_order (fuel : nat) (blocksize : Z) (s : frame) (r : res ctl)
    (s' : frame) :
  store_in_order s ->
  blocksize ∈ Env.blocksizes e ->
  tour e fuel blocksize s = (r, s') ->
  store_in_order s' /\ forall x, r = Raised x -> loop_exn x = true.
Proof.
  intros [[items Ht] Hp] Hin E.
  unfold tour, bind, lift, when_verbose, raise, ret, engine, time,
    dict_set, params_threads, get, check_block_size, bind in E.
  simpl in E.
  destruct (blocksize <? Env.fpylll_crossover e) eqn:Hcross; simpl in E;
    [destruct (blocksize <=? 0) eqn:Hchk; simpl in E;
       [injection E as <- <-;
        split; [split; [by eexists | done] | by intros x [= <-]] |] |];
    rewrite Ht in E; simpl in E.
  all: set (v := (time_time (S (S (clock s))) - time_time (clock s))%R) in *.
  all:
  destruct (timed_store_in_order (store s) (T_blocksizes s) (params s)
              items blocksize v Ht Hp) as [Ht' [o Hp']].
  all: repeat run_step E.
  all: repeat match goal with
         | Hl : look_ahead_round _ _ _ _ _ = _ |- _ =>
             eapply look_ahead_round_in_order in Hl as (? & ? & ?);
             [| exact Ht' | apply lookup_insert_eq | by eexists | exact Hin]
         end.
  all: try match type of E with
           | escalate _ ?fu ?bs ?nm ?w0 ?f0 = _ =>
               pose proof (escalate_log e fu bs nm w0 f0 r s' E)
                 as (_ & Hst & Hpa & HT);
               assert (forall x, r = Raised x -> x = NameError "svp_Tmax")
                 as Hesc
                 by (intros x ->; exact (escalate_exn fu bs nm w0 f0 x s' E))
           end.
  all: try (exfalso; congruence).
  all: try (injection E as <- <-).
  all: split.
  all: try (intros x Hx;
            first [ match goal with
                    | Hesc : forall y, _ = Raised y -> y = NameError _ |- _ =>
                        rewrite (Hesc x Hx); reflexivity
                    end
                  | simplify_eq;
                    first [ done
                          | eapply attainable_SVP_dim_exn; eassumption
                          | eapply expected_successful_SVP_dim_exn;
                            eassumption
                          | eapply attr_threads_exn; eassumption
                          | eauto ] ]).
  all: try assumption.
  all: try (split; [eexists; exact Ht' | simpl; eexists; eassumption]).
  all: try (match goal with
            | Hord : store_in_order ?f |- store_in_order _ =>
                destruct Hord as [[items' Hd] Hq];
                split; [exists items'|]; simpl in *; congruence
            end).
Qed.
End TourExceptions.

(** ** A schedule without tours *)

Section NoTours.
Context `{External}.
Local Arguments goal_reached : simpl never.

Lemma blocksizes_loop_skips (e : Env.t) (fuel : nat)
    (todo : list Z) (s : frame) :
  Env.tours e <= 0 -> todo <> [] ->
  blocksizes_loop e fuel todo s
  = if goal_reached e (g6k s) then finish e s
    else (Raised (ValueError "No solution found."), s).
Proof.
  intros Ht Hne. induction todo as [|blocksize rest IH]; [done|].
  simpl. replace (Z.to_nat (Env.tours e)) with O by lia. simpl.
  unfold bind, get, ret.
  destruct (goal_reached e (g6k s)) eqn:Hg; [done|].
  destruct rest as [|b rest]; [done|].
  by rewrite IH.
Qed.

(** X8: with [bkz/tours] at zero or below no tour is run: over a schedule
    that is not empty the loop writes the solution at once when the basis
    it is given already meets the goal, and otherwise raises the error of
    the exhausted schedule, leaving the frame as it was. *)
Theorem blocksizes_loop_no_tours (e : Env.t) (fuel : nat)
    (todo : list Z) (s : frame) :
  Env.tours e <= 0 -> todo <> [] ->
  blocksizes_loop e fuel todo s
  = if goal_reached e (g6k s) then finish e s
    else (Raised (ValueError "No solution found."), s).
Proof. apply blocksizes_loop_skips. Qed.
End NoTours.

Lemma stuck_goal_out_of_reach :
  @goal_reached stuck_engines stuck_env (g6k stuck_start) = false.
Proof.
  unfold goal_reached. destruct (Rle_dec _ _) as [Hle|]; [|done].
  exfalso. revert Hle.
  change (@get_r stuck_engines (g6k stuck_start) 0 0) with 1000000%R.
  unfold env_target_norm, target_norm. simpl. lra.
Qed.

Lemma blocksizes_loop_no_tours_witness :
  @blocksizes_loop stuck_engines stuck_env 0 [10; 11] stuck_start
  = if @goal_reached stuck_engines stuck_env (g6k stuck_start)
    then @finish stuck_engines stuck_env stuck_start
    else (Raised (ValueError "No solution found."), stuck_start).
Proof.
  apply (@blocksizes_loop_no_tours stuck_engines stuck_env 0 [10; 11]
           stuck_start); [simpl; lia | done].
Defined.

Lemma stuck_prologue :
  @prologue stuck_engines 40 no_tours_params = Done (stuck_env, stuck_start).
Proof. reflexivity. Qed.

Lemma stuck_run :
  @lwe_kernel stuck_engines 0 40 no_tours_params
  = (Raised (ValueError "No solution found."), Some stuck_start).
Proof.
  unfold lwe_kernel. rewrite stuck_prologue.
  rewrite blocksizes_loop_skips; [|simpl; lia|done].
  by rewrite stuck_goal_out_of_reach.
Qed.

(** ** The exceptions of a call *)

Section LoopExceptions.
Context `{External}.
Variable e : Env.t.

Local Arguments tour : simpl never.

Lemma tours_loop_in_order (fuel : nat) (blocksize : Z) (n : nat) :
  forall (s : frame) (r : res unit) (s' : frame),
    store_in_order s ->
    blocksize ∈ Env.blocksizes e ->
    tours_loop e fuel n blocksize s = (r, s') ->
    store_in_order s' /\ forall x, r = Raised x -> loop_exn x = true.
Proof.
  induction n as [|n IH]; intros s r s' Hord Hin E; simpl in E.
  - by injection E as <- <-.
  - unfold bind in E.
    destruct (tour e fuel blocksize s) as [r1 s1] eqn:Ht.
    apply tour_in_order in Ht as [Hord1 Hexn]; [|done..].
    destruct r1 as [[|]|x|].
    + by eapply IH.
    + by injection E as <- <-.
    + injection E as <- <-. split; [done|]. intros y [= <-]. by apply Hexn.
    + by injection E as <- <-.
Qed.

Lemma blocksizes_loop_in_order (fuel : nat) (todo : list Z) :
  forall (s : frame) (r : res unit) (s' : frame),
    store_in_order s ->
    (forall blocksize, blocksize ∈ todo -> blocksize ∈ Env.blocksizes e) ->
    blocksizes_loop e fuel todo s = (r, s') ->
    forall x, r = Raised x -> loop_exn x = true.
Proof.
  induction todo as [|blocksize rest IH]; intros s r s' Hord Hin E;
    simpl in E.
  - injection E as <- <-. by intros x [= <-].
  - unfold bind, get in E.
    destruct (tours_loop e fuel _ blocksize s) as [r1 s1] eqn:Ht.
    apply tours_loop_in_order in Ht as [Hord1 Hexn];
      [|done|apply Hin; by left].
    destruct r1 as [[]|x|].
    + destruct (goal_reached e (g6k s1)).
      * rewrite finish_run in E. by injection E as <- <-.
      * eapply IH; [done| |done]. intros b Hb. apply Hin. by right.
    + injection E as <- <-. intros y [= <-]. by apply Hexn.
    + by injection E as <- <-.
Qed.
End LoopExceptions.

Lemma prologue_in_order `{External} (n : Z) (p : Params) (e : Env.t)
    (s : frame) :
  prologue n p = Done (e, s) -> store_in_order s.
Proof.
  unfold prologue. intros E.
  destruct (load_lwe_challenge n (lwe_alpha p)) as [ncols q].
  destruct (gsa_params _ _ _ _) as [[[b s_] m_est]|]; [|done].
  simpl in E.
  destruct (build_blocksizes _ _) as [v| |]; [|done..].
  simpl in E. injection E as <- <-. split; simpl; by eexists.
Qed.

Lemma loop_exn_lookups (x : exn) :
  loop_exn x = true ->
  (forall key, x <> KeyError key) /\ (forall y, x <> NotInList y).
Proof.
  intros Hx. split; [by intros key ->|].
  intros y ->. unfold NotInList in Hx. simpl in Hx.
  apply orb_prop in Hx as [[Hx | Hx]%orb_prop | Hx];
    apply String.eqb_eq in Hx;
    eapply (NotInList_message y); [| by rewrite <- Hx | | by rewrite <- Hx
                                   | | by rewrite <- Hx];
    vm_compute; lia.
Qed.

(** X9: the lookups of the driver never fail in a call that has entered
    its loop.  The read of the table on line 247 finds its key, since the
    entry of the blocksize just run was written on line 187 and each
    extrapolation is written before it is read; and
    [blocksizes.index(blocksize)] on line 227 finds the blocksize of the
    iteration.  So such a call raises neither [KeyError] nor the
    [ValueError] of [index]. *)
Theorem lwe_kernel_exceptions `{External} (fuel : nat) (n : Z) (p : Params)
    (x : exn) (s' : frame) :
  lwe_kernel fuel n p = (Raised x, Some s') ->
  (forall key, x <> KeyError key) /\ (forall y, x <> NotInList y).
Proof.
  unfold lwe_kernel. intros Hk.
  destruct (prologue n p) as [[e s0]| |] eqn:Hp; [|done..].
  destruct (blocksizes_loop e fuel (Env.blocksizes e) s0)
    as [r1 s1] eqn:Hloop.
  injection Hk as -> <-.
  apply prologue_in_order in Hp.
  apply loop_exn_lookups.
  by eapply (blocksizes_loop_in_order e fuel (Env.blocksizes e) s0).
Qed.

Lemma lwe_kernel_exceptions_witness :
  (forall key, ValueError "No solution found." <> KeyError key)
  /\ (forall y, ValueError "No solution found." <> NotInList y).
Proof.
  apply (@lwe_kernel_exceptions stuck_engines 0 40 no_tours_params
           (ValueError "No solution found.") stuck_start).
  exact stuck_run.
Defined.

(** ** The exits of the kernel *)

Section Exits.
Context `{External}.
Variable e : Env.t.

Local Arguments lookahead : simpl never.
Local Arguments decide_more_BKZ : simpl never.
Local Arguments look_ahead_round : simpl never.
Local Arguments escalate : simpl never.
Local Arguments attainable_SVP_dim : simpl never.
Local Arguments expected_successful_SVP_dim : simpl never.
Local Arguments shrink_llb : simpl never.
Local Arguments goal_reached : simpl never.
Local Arguments py_index : simpl never.
Local Arguments tour : simpl never.

(** The larger search ends with a check of the goal: when it does not
    break, the basis it leaves does not meet the goal. *)
Lemma escalate_goal (fuel : nat) (blocksize current_n_max : Z) (w : World)
    (s : frame) (r : res ctl) (s' : frame) :
  escalate e fuel blocksize current_n_max w s = (r, s') ->
  goal_reached e (g6k s) = false ->
  r <> Done Break ->
  goal_reached e (g6k s') = false.
Proof.
  intros E Hg Hr. destruct (Env.verbose e) eqn:Hv.
  - rewrite escalate_verbose in E by done. by injection E as <- <-.
  - unfold escalate, bind, lift, when_verbose, raise, ret, engine, time,
      set_T0_BKZ, get in E.
    rewrite Hv in E. simpl in E.
    destruct (shrink_llb _ _ _ _ _) as [llb|x|] eqn:Hs;
      [| by injection E as <- <- | by injection E as <- <-].
    simpl in E.
    repeat run_step E; injection E as <- <-; simpl; done.
Qed.

(** Every change of the basis in an iteration is followed by a check of
    the goal before anything can raise: an iteration that does not break
    leaves a basis that does not meet the goal, provided the basis it
    was given did not, or the constructor accepts the blocksize. *)
Lemma tour_goal (fuel : nat) (blocksize : Z) (s : frame) (r : res ctl)
    (s' : frame) :
  store_in_order s ->
  goal_reached e (g6k s) = false \/ 0 < blocksize ->
  tour e fuel blocksize s = (r, s') ->
  r <> Done Break ->
  goal_reached e (g6k s') = false.
Proof.
  intros [[items Ht] _] Hpre E Hr.
  unfold tour, bind, lift, when_verbose, raise, ret, engine, time,
    dict_set, params_threads, get, check_block_size, bind in E.
  simpl in E.
  destruct (blocksize <? Env.fpylll_crossover e) eqn:Hcross; simpl in E;
    [destruct (blocksize <=? 0) eqn:Hchk; simpl in E;
       [injection E as <- <-; simpl;
        destruct Hpre as [|Hpos]; [done | apply Z.leb_le in Hchk; lia] |] |];
    rewrite Ht in E; simpl in E.
  all: repeat run_step E.
  all: repeat match goal with
         | Hl : look_ahead_round _ _ _ _ _ = _ |- _ =>
             apply look_ahead_round_quiet in Hl as (? & _ & _)
         end.
  all: try (eapply escalate_goal; [exact E | | exact Hr]).
  all: try (injection E as <- <-).
  all: repeat match goal with f : frame |- _ => destruct f end.
  all: simpl in *; simplify_eq.
  all: done.
Qed.

Lemma tours_loop_goal (fuel : nat) (blocksize : Z) (n : nat) :
  forall (s : frame) (r : res unit) (s' : frame),
    store_in_order s ->
    blocksize ∈ Env.blocksizes e ->
    goal_reached e (g6k s) = false \/ 0 < blocksize ->
    tours_loop e fuel n blocksize s = (r, s') ->
    r <> Done tt ->
    goal_reached e (g6k s') = false.
Proof.
  induction n as [|n IH]; intros s r s' Hord Hin Hpre E Hr; simpl in E.
  - by injection E as <- <-.
  - unfold bind in E.
    destruct (tour e fuel blocksize s) as [r1 s1] eqn:Ht.
    pose proof (tour_goal _ _ _ _ _ Hord Hpre Ht) as Hg.
    apply tour_in_order in Ht as [Hord1 _]; [|done..].
    destruct r1 as [[|]|x|].
    + eapply IH; [done | done | | done | done]. left. by apply Hg.
    + by injection E as <- <-.
    + injection E as <- <-. by apply Hg.
    + injection E as <- <-. by apply Hg.
Qed.

(** A call that does not return leaves a basis that does not meet the
    goal. *)
Lemma blocksizes_loop_goal (fuel : nat) (todo : list Z) :
  forall (s : frame) (r : res unit) (s' : frame),
    store_in_order s ->
    (forall blocksize, blocksize ∈ todo -> blocksize ∈ Env.blocksizes e) ->
    goal_reached e (g6k s) = false
    \/ (exists blocksize rest, todo = blocksize :: rest /\ 0 < blocksize) ->
    blocksizes_loop e fuel todo s = (r, s') ->
    r <> Done tt ->
    goal_reached e (g6k s') = false.
Proof.
  induction todo as [|blocksize rest IH]; intros s r s' Hord Hin Hpre E Hr;
    simpl in E.
  - injection E as <- <-. by destruct Hpre as [|(b & l & ? & _)].
  - unfold bind, get in E.
    destruct (tours_loop e fuel _ blocksize s) as [r1 s1] eqn:Ht.
    assert (goal_reached e (g6k s) = false \/ 0 < blocksize) as Hpre1.
    { destruct Hpre as [|(b & l & [= <- <-] & Hb)]; [by left | by right]. }
    pose proof (tours_loop_goal _ _ _ _ _ _ Hord
                  (Hin _ ltac:(by left)) Hpre1 Ht) as Hg.
    apply tours_loop_in_order in Ht as [Hord1 _];
      [|done|apply Hin; by left].
    destruct r1 as [[]|x|].
    + destruct (goal_reached e (g6k s1)) eqn:Hgoal.
      * rewrite finish_run in E. by injection E as <- <-.
      * eapply IH; [done | | by left | done | done].
        intros b Hb. apply Hin. by right.
    + injection E as <- <-. by apply Hg.
    + injection E as <- <-. by apply Hg.
Qed.

(** The error of the exhausted schedule is raised exactly when the
    schedule is exhausted. *)
Lemma blocksizes_loop_exhausted (fuel : nat) (todo : list Z) :
  forall (s : frame) (r : res unit) (s' : frame),
    blocksizes_loop e fuel todo s = (r, s') ->
    schedule_exhausted e fuel todo s = Some s'
    <-> r = Raised (ValueError "No solution found.").
Proof.
  induction todo as [|blocksize rest IH]; intros s r s' E; simpl in *.
  - injection E as <- <-. done.
  - unfold bind, get in E.
    destruct (tours_loop e fuel _ blocksize s) as [r1 s1] eqn:Ht.
    apply tours_loop_run in Ht as (Hnv & _).
    destruct r1 as [[]|x|].
    + destruct (goal_reached e (g6k s1)) eqn:Hgoal.
      * rewrite finish_run in E. injection E as <- <-. done.
      * by apply IH.
    + injection E as <- <-. split; [done|]. intros [= ->]. by destruct Hnv.
    + injection E as <- <-. done.
Qed.
End Exits.

(** The schedule a call enters its loop with starts at blocksize 10. *)
Lemma prologue_schedule `{External} (n : Z) (p : Params) (e : Env.t)
    (s : frame) :
  prologue n p = Done (e, s) ->
  exists rest, Env.blocksizes e = 10 :: rest.
Proof.
  unfold prologue. intros E.
  destruct (load_lwe_challenge n (lwe_alpha p)) as [ncols q].
  destruct (gsa_params _ _ _ _) as [[[b s_] m_est]|]; [|done].
  simpl in E.
  destruct (build_blocksizes _ _) as [v| |] eqn:Hb; [|done..].
  simpl in E. injection E as <- <-. simpl.
  destruct (bkz_blocksizes p) as [spec|]; simpl in Hb.
  - destruct (py_eval _) as [r| |] eqn:Hr; simpl in Hb; [|done..].
    by apply py_eval_range in Hr as (lo & hi & step & ->).
  - injection Hb as <-. simpl. by eexists.
Qed.

Section KernelCall.
Context `{External}.

(** C8, amended: the exits of the kernel.  When the estimator returns no
    parameters the call raises [TypeError], before any engine is built.
    A call that has entered its loop returns exactly when the basis it
    ends with meets the goal, and its last act is then to write the
    first basis row to the file named by the zero-padded dimension and
    [int(alpha * 1000)]: reaching the goal makes it write and return,
    and it never returns without the goal being met.  It raises
    [ValueError("No solution found.")] exactly when the schedule is
    exhausted, every blocksize having had its loop over [range(tours)]
    run to its end with the check of the goal failing each time; all
    the tours of the schedule have then been run.  A call that ends in
    any other way leaves the goal unmet. *)
Theorem lwe_kernel_exits (fuel : nat) (n : Z) (p : Params) :
  (forall ncols q,
     load_lwe_challenge n (lwe_alpha p) = (ncols, q) ->
     gsa_params ncols (lwe_alpha p) q
                (if Rlt_dec 0 (lwe_svp_bkz_time_factor p)
                 then true else false) = None ->
     lwe_kernel fuel n p
     = (Raised (TypeError "No winning parameters."), None))
  /\ (forall e s0 r s',
        prologue n p = Done (e, s0) ->
        lwe_kernel fuel n p = (r, Some s') ->
        (goal_reached e (g6k s') = true <-> r = Done tt)
        /\ (r = Done tt ->
            last (log s')
            = Some (Write (solution_filename n
                             (py_int (lwe_alpha p * 1000)))
                          (B0 (g6k s'))))
        /\ (schedule_exhausted e fuel (Env.blocksizes e) s0 = Some s'
            <-> r = Raised (ValueError "No solution found."))
        /\ (r = Raised (ValueError "No solution found.") ->
            count is_tour (log s')
            = (length (Env.blocksizes e) * Z.to_nat (bkz_tours p))%nat)).
Proof.
  split.
  - intros ncols q Hload Hgsa. unfold lwe_kernel, prologue.
    rewrite Hload, Hgsa. done.
  - intros e s0 r s' Hp Hk. unfold lwe_kernel in Hk. rewrite Hp in Hk.
    destruct (blocksizes_loop e fuel (Env.blocksizes e) s0)
      as [r1 s1] eqn:Hloop.
    injection Hk as <- <-.
    pose proof (prologue_in_order _ _ _ _ Hp) as Hord.
    pose proof (prologue_schedule _ _ _ _ Hp) as [rest Hsched].
    apply prologue_done in Hp as (Hn & Ha & _ & Ht & Hlog & Hne).
    pose proof (blocksizes_loop_exhausted e fuel _ _ _ _ Hloop) as Hex.
    pose proof (blocksizes_loop_goal e fuel _ _ _ _ Hord
                  (fun b Hb => Hb)
                  ltac:(right; exists 10, rest; split; [done | lia])
                  Hloop) as Hgoal.
    apply blocksizes_loop_run in Hloop as (_ & Hret & Herr).
    rewrite Hn, Ha in Hret.
    split; [|split; [|split; [done|]]].
    + split; [|by intros Hr; apply Hret].
      intros Hg. destruct r1 as [[]|x|]; [done | |];
        by rewrite Hgoal in Hg.
    + intros Hr. by apply Hret.
    + intros Hr. destruct (Herr Hr) as (Hcount & _).
      rewrite Hcount, Hlog, Ht. simpl. lia.
Qed.
End KernelCall.

Lemma lwe_kernel_exits_witness :
  @goal_reached toy_engines toy_env (g6k toy_finished) = true
  /\ last (log toy_finished)
     = Some (Write (solution_filename 40
                      (py_int (lwe_alpha default_params * 1000)))
                   (@B0 toy_engines (g6k toy_finished))).
Proof.
  destruct (proj2 (@lwe_kernel_exits toy_engines 0 40 default_params)
              toy_env toy_start (Done tt) toy_finished
              toy_prologue toy_run) as (Hgoal & Hwrite & _).
  split; [by apply Hgoal | by apply Hwrite].
Defined.

(** ** The lookahead at the end of the schedule *)

(** X10: at a blocksize with no entry after its first position in the
    schedule the window of the lookahead is empty: the round returns
    [False] for [more_BKZ], reads no thread count and leaves the frame,
    and with it [params] and the table, as they were. *)
Theorem look_ahead_round_at_end `{External} (e : Env.t)
    (blocksize current : Z) (w : World) (s : frame) (ind : nat) :
  py_index blocksize (Env.blocksizes e) = Done ind ->
  (length (Env.blocksizes e) <= S ind)%nat ->
  look_ahead_round e blocksize current w s = (Done false, s).
Proof.
  intros Hind Hlen. rewrite (look_ahead_round_eq e _ _ _ _ ind Hind).
  by rewrite drop_ge.
Qed.

Lemma look_ahead_round_at_end_witness :
  @look_ahead_round toy_engines run_env 49 90 (repeat 1%R 100) toy_start
  = (Done false, toy_start).
Proof.
  apply (@look_ahead_round_at_end toy_engines run_env 49 90 (repeat 1%R 100)
           toy_start 39%nat).
  - reflexivity.
  - simpl. lia.
Defined.

(** ** A time factor of zero *)

Section ZeroFactor.
Context `{External}.
Variable e : Env.t.
Hypothesis zero_factor : Env.svp_bkz_time_factor e = 0%R.

Local Arguments lookahead : simpl never.
Local Arguments decide_more_BKZ : simpl never.
Local Arguments look_ahead_round : simpl never.
Local Arguments escalate : simpl never.
Local Arguments attainable_SVP_dim : simpl never.
Local Arguments expected_successful_SVP_dim : simpl never.
Local Arguments goal_reached : simpl never.
Local Arguments tour : simpl never.

Lemma attainable_SVP_dim_zero_factor (t : Z) (T : R) :
  attainable_SVP_dim 0 t T = Raised MathDomainError.
Proof.
  unfold attainable_SVP_dim, py_log.
  destruct (Rlt_dec _ _) as [Hlt|]; [|done]. exfalso. lra.
Qed.

(** With the factor at zero an iteration never goes on to the next: it
    breaks with the goal reached or raises, before any search. *)
Lemma tour_zero_factor (fuel : nat) (blocksize : Z) (s : frame)
    (r : res ctl) (s' : frame) :
  tour e fuel blocksize s = (r, s') ->
  r <> Done Next /\ r <> OutOfFuel
  /\ (log s' = log s \/ log s' = log s ++ [Tour blocksize]).
Proof.
  intros E.
  unfold tour, bind, lift, when_verbose, raise, ret, engine, time,
    dict_set, params_threads, get, check_block_size, bind in E.
  rewrite zero_factor in E. simpl in E.
  repeat run_step E.
  all: try match goal with
           | Hx : attainable_SVP_dim 0 _ _ = _ |- _ =>
               rewrite attainable_SVP_dim_zero_factor in Hx
           end.
  all: try discriminate.
  all: injection E as <- <-.
  all: try match goal with
           | Hx : attr_threads ?o = OutOfFuel |- _ =>
               exfalso; destruct o; simpl in Hx;
               repeat case_match; discriminate
           end.
  all: split; [done|split; [done|simpl; rewrite ?app_nil_r; by eauto]].
Qed.

(** X11: with [lwe/svp_bkz_time_factor] at zero a call runs at most one
    tour and no search, and cannot hang: the forecast of the attainable
    dimension raises the domain error of the logarithm in the first
    iteration that does not reach the goal. *)
Theorem zero_time_factor_stops (fuel : nat) (todo : list Z) (s : frame) :
  (count is_tour (log (blocksizes_loop e fuel todo s).2)
   <= S (count is_tour (log s)))%nat
  /\ count is_pump (log (blocksizes_loop e fuel todo s).2)
     = count is_pump (log s)
  /\ (blocksizes_loop e fuel todo s).1 <> OutOfFuel.
Proof.
  destruct todo as [|blocksize rest]; [simpl; split; [lia|done]|].
  destruct (Z.to_nat (Env.tours e)) as [|k] eqn:Hn.
  - rewrite blocksizes_loop_skips by (done || lia).
    destruct (goal_reached e (g6k s)).
    + rewrite finish_run. simpl. rewrite !count_app. simpl.
      split; [lia|]. split; [lia|done].
    + simpl. split; [lia|done].
  - destruct (blocksizes_loop e fuel (blocksize :: rest) s) as [r s'] eqn:E.
    simpl in E. rewrite Hn in E. simpl in E. unfold bind, get in E.
    destruct (tour e fuel blocksize s) as [r1 s1] eqn:Ht.
    pose proof (tour_run e _ _ _ _ _ Ht) as (_ & Hbreak & _).
    apply tour_zero_factor in Ht as (Hnext & Hfuel & Hlog).
    destruct r1 as [[|]|x|]; try done; simpl in E.
    + rewrite (Hbreak eq_refl), finish_run in E. injection E as <- <-.
      simpl. destruct Hlog as [-> | ->]; rewrite !count_app; simpl;
        (split; [lia|]; split; [lia|done]).
    + injection E as <- <-. simpl.
      destruct Hlog as [-> | ->]; rewrite ?count_app; simpl;
        (split; [lia|]; split; [lia|done]).
Qed.
End ZeroFactor.

Lemma zero_time_factor_stops_witness :
  (count is_tour
     (log (@blocksizes_loop toy_engines zero_factor_env 3 [10%Z; 11%Z]
             toy_start).2)
   <= S (count is_tour (log toy_start)))%nat
  /\ count is_pump
       (log (@blocksizes_loop toy_engines zero_factor_env 3 [10%Z; 11%Z]
               toy_start).2)
     = count is_pump (log toy_start)
  /\ (@blocksizes_loop toy_engines zero_factor_env 3 [10%Z; 11%Z] toy_start).1
     <> OutOfFuel.
Proof.
  apply (@zero_time_factor_stops toy_engines zero_factor_env).
  reflexivity.
Defined.

(** ** The schedule of blocksizes *)

Lemma string_app_assoc (a b c : string) :
  ((a +:+ b) +:+ c = a +:+ (b +:+ c))%string.
Proof.
  induction a as [|x a IH]; [done|].
  rewrite !string_app_cons. by f_equal.
Qed.

Lemma string_length_app (a b : string) :
  String.length (a +:+ b) = (String.length a + String.length b)%nat.
Proof.
  induction a as [|x a IH]; [done|].
  rewrite string_app_cons. simpl. by f_equal.
Qed.

Lemma substring_skip (a b : string) (k : nat) :
  substring (String.length a) k (a +:+ b) = substring 0 k b.
Proof.
  induction a as [|x a IH]; [done|]. by rewrite string_app_cons.
Qed.

Lemma substring_prefix (a b : string) :
  substring 0 (String.length a) (a +:+ b) = a.
Proof.
  induction a as [|x a IH]; [by destruct b|].
  rewrite string_app_cons. simpl. by f_equal.
Qed.

Lemma substring_empty (a : string) : substring 0 0 a = ""%string.
Proof. by destruct a. Qed.

Lemma call_arguments_range (args : string) :
  call_arguments "range" ("range(" +:+ args +:+ ")") = Some args.
Proof.
  unfold call_arguments.
  change ("range" +:+ "(")%string with "range("%string.
  change (String.length "range(") with 6%nat.
  set (s := ("range(" +:+ args +:+ ")")%string).
  assert (Hlen : String.length s = S (6 + String.length args)).
  { unfold s. rewrite !string_length_app. simpl. lia. }
  assert (H1 : substring 0 6 s = "range("%string).
  { unfold s. rewrite !string_app_cons. simpl.
    by rewrite substring_empty. }
  assert (H2 : substring (6 + String.length args) 1 s = ")"%string).
  { unfold s. rewrite !string_app_cons. simpl.
    change (String.append "" ?x) with x.
    by rewrite substring_skip. }
  assert (H3 : substring 6 (String.length args) s = args).
  { unfold s. rewrite !string_app_cons. simpl.
    change (String.append "" ?x) with x.
    apply substring_prefix. }
  rewrite Hlen.
  replace (S (6 + String.length args) - 1)%nat
    with (6 + String.length args)%nat by lia.
  replace (6 + String.length args - 6)%nat with (String.length args) by lia.
  rewrite H1, H2, H3. simpl.
  by destruct (String.length args).
Qed.

Lemma re_sub_colon_app (a b : string) :
  re_sub_colon (a +:+ b) = (re_sub_colon a +:+ re_sub_colon b)%string.
Proof.
  induction a as [|x a IH]; [done|].
  rewrite string_app_cons. simpl. by rewrite IH.
Qed.

Lemma re_sub_colon_plain (a : string) :
  no_separator a = true -> re_sub_colon a = a.
Proof.
  induction a as [|x a IH]; [done|]. simpl.
  intros [[Hc _]%andb_prop Ha]%andb_prop.
  rewrite (IH Ha). destruct (Ascii.eqb x ":"); [done|done].
Qed.

Lemma split_commas_plain (a rest cur : string) :
  no_separator a = true ->
  split_commas (a +:+ rest) cur = split_commas rest (cur +:+ a).
Proof.
  revert cur. induction a as [|x a IH]; intros cur.
  - intros _. f_equal. induction cur as [|y cur IHc]; [done|].
    rewrite string_app_cons. by f_equal.
  - intros Hs. simpl in Hs.
    apply andb_prop in Hs as [[_ Hc]%andb_prop Ha].
    rewrite string_app_cons. simpl.
    destruct (Ascii.eqb x ","); [done|].
    rewrite (IH _ Ha). f_equal.
    by rewrite string_app_assoc.
Qed.

Lemma no_separator_digits (d : Decimal.uint) :
  no_separator (NilEmpty.string_of_uint d) = true.
Proof. induction d; simpl; done. Qed.

Lemma no_separator_decimal (z : Z) : no_separator (decimal z) = true.
Proof.
  unfold decimal.
  destruct (Z.to_int z) as [d|d]; simpl;
    destruct d; simpl; rewrite ?no_separator_digits; done.
Qed.

Lemma int_literal_decimal (z : Z) : int_literal (decimal z) = Some z.
Proof.
  unfold int_literal. unfold decimal at 1.
  rewrite NilZero.isi.
  - simpl. rewrite DecimalZ.of_to. by rewrite String.eqb_refl.
  - destruct z; simpl; [done| |done].
    intros [= Hp]. by apply DecimalPos.Unsigned.to_uint_nonnil in Hp.
  - destruct z; simpl; [done|done|].
    intros [= Hp]. by apply DecimalPos.Unsigned.to_uint_nonnil in Hp.
Qed.

Lemma string_app_nil_r (a : string) : (a +:+ "")%string = a.
Proof.
  induction a as [|x a IH]; [done|]. rewrite string_app_cons. by f_equal.
Qed.

Lemma split_commas_field (a rest : string) :
  no_separator a = true ->
  split_commas (a +:+ "," +:+ rest) "" = a :: split_commas rest "".
Proof.
  intros Ha. rewrite (split_commas_plain _ _ _ Ha).
  rewrite string_app_cons. reflexivity.
Qed.

Lemma split_commas_last (a : string) :
  no_separator a = true -> split_commas a "" = [a].
Proof.
  intros Ha. rewrite <- (string_app_nil_r a) at 1.
  by rewrite (split_commas_plain _ _ _ Ha).
Qed.

Lemma py_eval_explicit_spec (lo hi inc : Z) :
  py_eval ("range(" +:+ re_sub_colon (explicit_spec lo hi inc) +:+ ")")
  = if inc =? 0 then Raised (ValueError "range() arg 3 must not be zero")
    else Done (PyRange lo hi inc).
Proof.
  unfold py_eval. rewrite call_arguments_range.
  unfold explicit_spec.
  rewrite !re_sub_colon_app,
    !(re_sub_colon_plain _ (no_separator_decimal _)).
  change (re_sub_colon ":") with ","%string.
  rewrite !(split_commas_field _ _ (no_separator_decimal _)).
  rewrite (split_commas_last _ (no_separator_decimal _)).
  simpl. rewrite !int_literal_decimal. simpl. done.
Qed.

(** X12: for every documented value [low:high:inc] of [bkz/blocksizes],
    whatever the three integers, line 135 raises and no schedule is
    built: the [ValueError] of [range] for an increment of zero, the
    [TypeError] of adding a [range] object to a list otherwise.  With the
    range wrapped in [list(...)] the same line gives [10..40) followed by
    [range(low, high, inc)]. *)
Theorem build_blocksizes_explicit_spec (lo hi inc b : Z) :
  build_blocksizes (Some (explicit_spec lo hi inc)) b
  = Raised (if inc =? 0
            then ValueError "range() arg 3 must not be zero"
            else TypeError "can only concatenate list (not range) to list")
  /\ build_blocksizes_listed (explicit_spec lo hi inc)
     = if inc =? 0
       then Raised (ValueError "range() arg 3 must not be zero")
       else Done (PyList (py_range 10 40 1 ++ py_range lo hi inc)).
Proof.
  unfold build_blocksizes, build_blocksizes_listed.
  rewrite py_eval_explicit_spec.
  by destruct (inc =? 0).
Qed.

Lemma elem_of_py_range (lo hi step x : Z) :
  0 < step ->
  x ∈ py_range lo hi step <-> lo <= x < hi /\ (x - lo) mod step = 0.
Proof.
  intros Hstep. unfold py_range.
  destruct (Z.ltb_spec 0 step) as [_|]; [|lia].
  rewrite list_elem_of_fmap. setoid_rewrite elem_of_seq.
  split.
  - intros (i & -> & _ & Hi). simpl in Hi.
    assert (Hlt : Z.of_nat i < (hi - lo + step - 1) / step) by lia.
    pose proof (Z.mul_div_le (hi - lo + step - 1) step Hstep) as Hd.
    split; [nia|].
    replace (lo + Z.of_nat i * step - lo) with (Z.of_nat i * step) by lia.
    apply Z_mod_mult.
  - intros [[Hlo Hhi] Hmod].
    apply Z.mod_divide in Hmod as [k Hk]; [|lia].
    assert (0 <= k) by nia.
    exists (Z.to_nat k). split; [lia|]. split; [lia|]. simpl.
    assert (k + 1 <= (hi - lo + step - 1) / step); [|lia].
    apply Z.div_le_lower_bound; [lia|]. nia.
Qed.

Lemma py_range_sorted (lo hi step : Z) :
  0 < step -> StronglySorted Z.lt (py_range lo hi step).
Proof.
  intros Hstep. unfold py_range.
  destruct (Z.ltb_spec 0 step) as [_|]; [|lia].
  generalize (Z.to_nat ((hi - lo + step - 1) / step)) as n.
  generalize 0%nat as a. intros a n. revert a.
  induction n as [|n IH]; intros a; simpl; constructor; [apply IH|].
  apply Forall_forall. intros x (i & -> & Hi%elem_of_seq)%list_elem_of_fmap.
  nia.
Qed.

Lemma default_schedule_sorted (b : Z) :
  65 <= b -> StronglySorted Z.lt (default_schedule b).
Proof.
  intros Hb. unfold default_schedule.
  repeat apply StronglySorted_app_2;
    try (apply py_range_sorted; lia).
  - intros x y Hx [Hy _]%elem_of_py_range; [|lia].
    apply elem_of_app in Hx as [Hx| ->%list_elem_of_singleton]; [|lia].
    apply elem_of_app in Hx as [Hx|Hx];
      apply elem_of_py_range in Hx; lia.
  - intros x y Hx ->%list_elem_of_singleton.
    apply elem_of_app in Hx as [Hx|Hx];
      apply elem_of_py_range in Hx; lia.
  - intros x y [Hx _]%elem_of_py_range [Hy _]%elem_of_py_range; lia.
  - repeat constructor.
Qed.

Lemma py_index_sorted (l : list Z) (i : nat) (x : Z) :
  StronglySorted Z.lt l -> l !! i = Some x -> py_index x l = Done i.
Proof.
  intros Hs. revert i.
  induction Hs as [|y l Hs IH Hall]; intros i Hi; [done|].
  destruct i as [|i]; simpl in *.
  - injection Hi as ->. by destruct (Z.eq_dec x x).
  - destruct (Z.eq_dec y x) as [->|_].
    + apply list_elem_of_lookup_2 in Hi.
      rewrite Forall_forall in Hall. specialize (Hall _ Hi). lia.
    + by rewrite (IH _ Hi).
Qed.

(** X13: without [bkz/blocksizes] line 137 always builds a schedule, and
    the schedule is strictly increasing exactly when the predicted
    blocksize [b] is at least 65; below that the entry [b - 15] does not
    exceed the 49 before it. *)
Theorem default_schedule_increasing (b : Z) :
  (build_blocksizes None b = Done (PyList (default_schedule b)))
  /\ (StronglySorted Z.lt (default_schedule b) <-> 65 <= b).
Proof.
  split; [reflexivity|]. unfold default_schedule. split.
  - intros Hs.
    apply StronglySorted_app_1_l in Hs.
    assert (H49 : 49 ∈ py_range 10 50 1 ++ py_range 70 (b - 15) 10).
    { apply elem_of_app. left. by apply elem_of_py_range. }
    pose proof (StronglySorted_app_1_elem_of _ _ _ _ _ Hs H49
                  (list_elem_of_here _ _)) as Hlt.
    lia.
  - apply default_schedule_sorted.
Qed.

Lemma default_schedule_increasing_witness :
  StronglySorted Z.lt (default_schedule 70).
Proof. apply (proj2 (proj2 (default_schedule_increasing 70))). lia. Defined.

(** X14: in the default schedule for a predicted blocksize of at least 65
    no blocksize is repeated, so [blocksizes.index(blocksize)] on line 227
    is the position of the running iteration and the lookahead window
    holds the next two entries. *)
Theorem default_schedule_index (b : Z) (i : nat) (x : Z) :
  65 <= b -> default_schedule b !! i = Some x ->
  py_index x (default_schedule b) = Done i.
Proof.
  intros Hb Hi. by apply py_index_sorted; [apply default_schedule_sorted|].
Qed.

Lemma default_schedule_index_witness :
  py_index 50 (default_schedule 65) = Done 40%nat.
Proof.
  apply (default_schedule_index 65 40 50); [lia|reflexivity].
Defined.

(** X15: for a predicted blocksize from 25 to 64 the default schedule
    repeats a blocksize: its entry at position 40 is [b - 15], which
    already stands at position [b - 25], and that earlier position is
    what [blocksizes.index] on line 227 returns for it. *)
Theorem default_schedule_repeats (b : Z) :
  25 <= b <= 64 ->
  default_schedule b !! 40%nat = Some (b - 15)
  /\ py_index (b - 15) (default_schedule b) = Done (Z.to_nat (b - 25)).
Proof.
  intros Hb.
  assert (Hall : forallb (fun b =>
             bool_decide (default_schedule b !! 40%nat = Some (b - 15))
             && match py_index (b - 15) (default_schedule b) with
                | Done i => bool_decide (i = Z.to_nat (b - 25))
                | _ => false
                end) (seqZ 25 40) = true)
    by (vm_compute; reflexivity).
  rewrite forallb_forall in Hall.
  assert (Hin : In b (seqZ 25 40)).
  { apply list_elem_of_In, elem_of_seqZ. lia. }
  apply Hall in Hin.
  apply andb_prop in Hin as [H40%bool_decide_eq_true Hidx].
  split; [done|].
  destruct (py_index _ _) as [i| |]; try done.
  by apply bool_decide_eq_true in Hidx as ->.
Qed.

Lemma default_schedule_repeats_witness :
  default_schedule 60 !! 40%nat = Some (60 - 15)
  /\ py_index (60 - 15) (default_schedule 60) = Done (Z.to_nat (60 - 25)).
Proof. apply (default_schedule_repeats 60). lia. Defined.

(** ** The name of the solution file *)

Lemma string_app_inj (a a' b b' : string) :
  String.length a = String.length a' ->
  (a +:+ b = a' +:+ b')%string -> a = a' /\ b = b'.
Proof.
  revert a'. induction a as [|x a IH]; intros [|x' a'] Hlen; try done.
  rewrite !string_app_cons. intros [= -> Hrest].
  destruct (IH a') as [-> ->]; [by injection Hlen|done|done].
Qed.

Lemma fmt_03d_small (z : Z) :
  0 <= z < 1000 ->
  String.length (fmt_03d z) = 3%nat /\ Z.of_int <$> NilZero.int_of_string (fmt_03d z) = Some z.
Proof.
  intros Hz.
  assert (Hall : forallb (fun z => bool_decide
             (String.length (fmt_03d z) = 3%nat
              /\ Z.of_int <$> NilZero.int_of_string (fmt_03d z) = Some z)) (seqZ 0 1000) = true)
    by (vm_compute; reflexivity).
  rewrite forallb_forall in Hall.
  assert (Hin : In z (seqZ 0 1000)).
  { apply list_elem_of_In, elem_of_seqZ. lia. }
  apply Hall in Hin.
  by apply bool_decide_eq_true in Hin.
Qed.

(** X16: for [n] and [alpha_] from 0 to 999 the file name of lines
    299-300 has 33 characters, three digits for each field, and
    determines the pair: two instances write the same solution file only
    if they agree on [n] and on [int(alpha*1000)]. *)
Theorem solution_filename_injective (n alpha_ n' alpha_' : Z) :
  0 <= n < 1000 -> 0 <= alpha_ < 1000 ->
  0 <= n' < 1000 -> 0 <= alpha_' < 1000 ->
  String.length (solution_filename n alpha_) = 33%nat
  /\ (solution_filename n alpha_ = solution_filename n' alpha_' ->
      n = n' /\ alpha_ = alpha_').
Proof.
  intros Hn Ha Hn' Ha'.
  destruct (fmt_03d_small n Hn) as [Ln Rn].
  destruct (fmt_03d_small n' Hn') as [Ln' Rn'].
  destruct (fmt_03d_small alpha_ Ha) as [La Ra].
  destruct (fmt_03d_small alpha_' Ha') as [La' Ra'].
  unfold solution_filename. split.
  - rewrite !string_length_app, Ln, La. reflexivity.
  - intros E.
    apply string_app_inj in E as [_ E]; [|done].
    apply string_app_inj in E as [En E]; [|congruence].
    apply string_app_inj in E as [_ E]; [|done].
    apply string_app_inj in E as [Ea _]; [|congruence].
    rewrite En in Rn. rewrite Ea in Ra. split; congruence.
Qed.

Lemma solution_filename_injective_witness :
  String.length (solution_filename 40 5) = 33%nat
  /\ (solution_filename 40 5 = solution_filename 40 5 -> 40 = 40 /\ 5 = 5).
Proof.
  apply (solution_filename_injective 40 5 40 5); lia.
Defined.
